(** * Retention scan and reconciled deletion (src/components, the Automation component)

    A shallow embedding of the retention evaluator ([handleScan]), the
    exclusion operations ([handleExcludeItem], [handleExcludeAll]) and the
    deletion run ([handleDelete]) of the Automation component, followed by
    the properties the specification states about them.

    Conventions of the embedding:
    - JavaScript numbers that hold counts, identifiers and epoch
      milliseconds are integers ([Z]); [NaN] is [None].  The quotient
      [ageInDays] is a rational ([Q]): the double division is exact up to
      rounding far below one millisecond for every date a [Date] can hold
      and every threshold below ten million days.
    - Strings are byte strings; the decimal digits and the white space
      recognised by [parseInt] and by the pattern [\d+] are the ASCII ones.
    - React state is one record, [AppState]; the setters of a handler are
      applied in program order.
    - The remote services are an oracle: the answer to a call is a function
      of the calls issued before it. *)

From Stdlib Require Import ZArith QArith String Ascii List.
From stdpp Require Import base list strings gmap sets.

Local Open Scope string_scope.
Local Open Scope Z_scope.

(* ===================================================================== *)
(** ** JavaScript values and built-ins used by the component *)
(* ===================================================================== *)

(** Modelled from the spec: the record types of the acquisition managers
    (declared in src/types, which is not part of the sources) carry
    identifiers that the specification writes as strings (["r1"], ["tt1"])
    and the code compares with [===] against the number [parseInt] returns.
    A field of such a record is therefore a run-time value: a number or a
    string. *)
Inductive jsval : Type :=
  | JNum (n : Z)
  | JStr (s : string).

#[global] Instance jsval_eq_dec : EqDecision jsval.
Proof. solve_decision. Defined.

(** [v === n] where [n] is the result of [parseInt] ([None] is [NaN]):
    strict equality never holds across types, nor against [NaN]. *)
Definition strict_eq_num (v : jsval) (n : option Z) : bool :=
  match v, n with
  | JNum a, Some b => a =? b
  | _, _ => false
  end.

Definition code_of (c : ascii) : Z := Z.of_N (N_of_ascii c).

Definition digit_val (c : ascii) : option Z :=
  let n := code_of c in
  if (48 <=? n) && (n <=? 57) then Some (n - 48) else None.

Definition hex_val (c : ascii) : option Z :=
  let n := code_of c in
  if (48 <=? n) && (n <=? 57) then Some (n - 48)
  else if (97 <=? n) && (n <=? 102) then Some (n - 87)
  else if (65 <=? n) && (n <=? 70) then Some (n - 55)
  else None.

Definition is_digit (c : ascii) : bool :=
  match digit_val c with Some _ => true | None => false end.

(** TAB, LF, VT, FF, CR and SPACE. *)
Definition is_white (c : ascii) : bool :=
  let n := code_of c in ((9 <=? n) && (n <=? 13)) || (n =? 32).

Fixpoint trim_start (s : string) : string :=
  match s with
  | String c r => if is_white c then trim_start r else s
  | EmptyString => s
  end.

(** The longest prefix of radix digits, read left to right; [acc] is [None]
    until a first digit has been read. *)
Fixpoint read_digits (val : ascii -> option Z) (radix : Z) (s : string)
    (acc : option Z) : option Z :=
  match s with
  | String c r =>
      match val c with
      | Some d => read_digits val radix r (Some (radix * default 0 acc + d))
      | None => acc
      end
  | EmptyString => acc
  end.

(** [parseInt(s)] with no radix argument: leading white space, an optional
    sign, an optional [0x]/[0X] prefix, then the longest run of digits;
    [NaN] when that run is empty.  The value is exact (a double is, up to
    2^53). *)
Definition parseInt (s : string) : option Z :=
  let s1 := trim_start s in
  let '(sign, s2) :=
    match s1 with
    | String "-" r => (-1, r)
    | String "+" r => (1, r)
    | _ => (1, s1)
    end in
  let '(val, radix, s3) :=
    match s2 with
    | String "0" (String "x" r) => (hex_val, 16, r)
    | String "0" (String "X" r) => (hex_val, 16, r)
    | _ => (digit_val, 10, s2)
    end in
  Z.mul sign <$> read_digits val radix s3 None.

Fixpoint take_digits (s : string) : string :=
  match s with
  | String c r => if is_digit c then String c (take_digits r) else EmptyString
  | EmptyString => EmptyString
  end.

(** [s.match(/\d+/)]: the first maximal run of decimal digits of [s]
    (element [0] of the match), [None] when [s] has no digit. *)
Fixpoint match_digits (s : string) : option string :=
  match s with
  | String c r => if is_digit c then Some (take_digits s) else match_digits r
  | EmptyString => None
  end.

(** Truthiness of an optional string: [undefined] and [""] are falsy. *)
Definition truthy_str (s : option string) : option string :=
  match s with
  | Some v => if decide (v = "") then None else Some v
  | None => None
  end.

(** [x || d] on a number that may be absent: [undefined], [null] and [0]
    are falsy. *)
Definition or_default (x : option Z) (d : Z) : Z :=
  match x with
  | Some v => if v =? 0 then d else v
  | None => d
  end.

(** [[...new Set(l)]]: a set iterates in insertion order, so every value
    stays at the place of its first occurrence. *)
Fixpoint set_spread (l : list string) : list string :=
  match l with
  | [] => []
  | x :: r => x :: filter (λ y, y ≠ x) (set_spread r)
  end.

(* ===================================================================== *)
(** ** Data model *)
(* ===================================================================== *)

Record ProviderIdsT : Type := {
  Tmdb : option string;
  Tvdb : option string
}.

(** A catalog entry, with the fields the component reads.  [DateCreated]
    holds [new Date(item.DateCreated).getTime()]: epoch milliseconds, [None]
    for an invalid date. *)
Record JellyfinItem : Type := {
  Id : string;
  Name : string;
  Type_ : string;
  DateCreated : option Z;
  SeriesId : option string;
  SeriesName : option string;
  ProviderIds : option ProviderIdsT
}.

Record RadarrMovie : Type := {
  radarr_id : jsval;
  tmdbId : jsval
}.

Record SonarrSeries : Type := {
  sonarr_id : jsval;
  tvdbId : jsval
}.

Record SonarrEpisode : Type := {
  seasonNumber : jsval;
  hasFile : bool;
  episodeFileId : jsval
}.

Record ServiceSettings : Type := {
  url : string;
  apiKey : string
}.

Record AutomationSettings : Type := {
  movieRetentionDays_setting : option Z;
  tvSeasonRetentionDays_setting : option Z
}.

Record JccSettings : Type := {
  jellyfin : option ServiceSettings;
  radarr : option ServiceSettings;
  sonarr : option ServiceSettings;
  automation : option AutomationSettings
}.

Record SettingsContextType : Type := {
  settings : option JccSettings
}.

(** [s?.url && s?.apiKey] as a condition. *)
Definition configured (s : option ServiceSettings) : bool :=
  match s with
  | Some c => negb (String.eqb (url c) "") && negb (String.eqb (apiKey c) "")
  | None => false
  end.

(** The translation keys passed to [t], with their parameters. *)
Inductive LogMsg : Type :=
  | logScanStarted
  | logScanFoundItems (count : nat)
  | logScanComplete (count : nat)
  | logError (error : string)
  | logItemExcluded (name : string)
  | logAllExcluded (count : nat)
  | logDeletionStarted (count : nat)
  | logDeletionFailedRadarr (name : string)
  | logDeletionFailedTmdb (name : string)
  | logDeletionSuccessRadarr (name : string)
  | logDeletionInfoRadarr (name : string)
  | logDeletionFailedSonarr (seriesName : option string) (name : string)
  | logDeletionFailedTvdb (seriesName : option string) (name : string)
  | logDeletionFailedSeasonNumber (name : string)
  | logDeletionInfoSonarrFiles (seriesName : option string) (name : string)
  | logDeletionFailedEpisode (seriesName : option string) (name : string)
      (error : string)
  | logDeletionSuccessSonarr (count : nat) (seriesName : option string)
      (name : string)
  | logDeletionFailedSonarrMulti (seriesName : option string) (name : string)
  | logDeletionInfoSonarrSeries (seriesName : option string)
  | logDeletionComplete (successCount total : nat).

#[global] Instance LogMsg_eq_dec : EqDecision LogMsg.
Proof. solve_decision. Defined.

(** The banner set with [setError]. *)
Inductive ErrorMsg : Type :=
  | automationJellyfinNotConfigured
  | logScanError (error : string)
  | logDeletionCriticalError (error : string).

(** One line of the log: the time read by [addLog] and the message. *)
Record LogEntry : Type := {
  stamp : Z;
  message : LogMsg
}.

Record AppState : Type := {
  isLoading : bool;
  deletableItems : list JellyfinItem;
  selectedItems : gset string;
  logs : list LogEntry;
  error : option ErrorMsg;
  isModalOpen : bool;
  exclusions : list string
}.

(* ===================================================================== *)
(** ** Retention policy evaluator (the filter of [handleScan]) *)
(* ===================================================================== *)

Definition msPerDay : Z := 1000 * 3600 * 24.

Definition ageInDays (now : Z) (dateCreated : option Z) : option Q :=
  (λ c, (inject_Z (now - c) / inject_Z msPerDay)%Q) <$> dateCreated.

(** [age > days]; a comparison with [NaN] is false. *)
Definition num_gt (age : option Q) (days : Z) : bool :=
  match age with
  | Some a => negb (Qle_bool a (inject_Z days))
  | None => false
  end.

(** [settingsCtx?.settings?.automation] *)
Definition automationOf (ctx : option SettingsContextType)
    : option AutomationSettings :=
  (ctx ≫= settings) ≫= automation.

Definition movieRetentionDays (ctx : option SettingsContextType) : Z :=
  or_default (automationOf ctx ≫= movieRetentionDays_setting) 7.

Definition tvSeasonRetentionDays (ctx : option SettingsContextType) : Z :=
  or_default (automationOf ctx ≫= tvSeasonRetentionDays_setting) 28.

(** The callback given to [allItems.filter] in [handleScan]. *)
Definition isDeletable (exclusions : list string) (movieDays seasonDays : Z)
    (now : Z) (item : JellyfinItem) : bool :=
  if bool_decide (Id item ∈ exclusions) then false
  else
    let age := ageInDays now (DateCreated item) in
    if String.eqb (Type_ item) "Movie" && num_gt age movieDays then true
    else if String.eqb (Type_ item) "Season" && num_gt age seasonDays then true
    else false.

Definition evaluate (exclusions : list string) (movieDays seasonDays : Z)
    (now : Z) (allItems : list JellyfinItem) : list JellyfinItem :=
  List.filter (isDeletable exclusions movieDays seasonDays now) allItems.

(* ===================================================================== *)
(** ** The outside world: services, clock, exceptions *)
(* ===================================================================== *)

(** The calls the component issues to the catalog and to the two
    acquisition managers (the connection settings they receive are fixed
    during a run and left out). *)
Inductive Call : Type :=
  | CallGetItems (kinds : list string)
  | CallGetItemsByIds (ids : list string)
  | CallGetRadarrMovies
  | CallGetSonarrSeries
  | CallDeleteRadarrMovie (id : jsval)
  | CallGetSonarrEpisodes (seriesId : jsval)
  | CallDeleteSonarrEpisodeFile (episodeFileId : jsval).

#[global] Instance Call_eq_dec : EqDecision Call.
Proof. solve_decision. Defined.

(** A promise settles with a value or rejects with an error, of which the
    handlers keep the message. *)
Inductive result (A : Type) : Type :=
  | Ok (a : A)
  | Throw (msg : string).

Arguments Ok {A} a.
Arguments Throw {A} msg.

(** The answer of every service is a function of the calls issued so far
    (most recent first) and of the arguments; [clock n] is the time read by
    the [n]-th evaluation of [new Date()]. *)
Record Services : Type := {
  getItems : list Call -> list string -> result (list JellyfinItem);
  getItemsByIds : list Call -> list string -> result (list JellyfinItem);
  getRadarrMovies : list Call -> result (list RadarrMovie);
  getSonarrSeries : list Call -> result (list SonarrSeries);
  getSonarrEpisodes : list Call -> jsval -> result (list SonarrEpisode);
  deleteRadarrMovie : list Call -> jsval -> result unit;
  deleteSonarrEpisodeFile : list Call -> jsval -> result unit;
  clock : nat -> Z
}.

(** What a handler runs on: the React state, the calls issued so far (most
    recent first), the number of clock readings, and the local counter
    [successCount] of [handleDelete]. *)
Record Run : Type := {
  app : AppState;
  history : list Call;
  reads : nat;
  successCount : nat
}.

(** State and exceptions: a computation ends in a new state with a value
    or with a thrown error. *)
Definition M (A : Type) : Type := Run -> Run * result A.

#[global] Instance M_ret : MRet M := λ A a r, (r, Ok a).

#[global] Instance M_bind : MBind M := λ A B f m r,
  match m r with
  | (r', Ok a) => f a r'
  | (r', Throw e) => (r', Throw e)
  end.

(** [try { m } catch (err) { h (message of err) }] *)
Definition try_catch {A} (m : M A) (h : string -> M A) : M A := λ r,
  match m r with
  | (r', Ok a) => (r', Ok a)
  | (r', Throw e) => h e r'
  end.

Definition modify_app (f : AppState -> AppState) : M unit := λ r,
  ({| app := f (app r); history := history r; reads := reads r;
      successCount := successCount r |}, Ok tt).

Definition get_app : M AppState := λ r, (r, Ok (app r)).

(** The state once the call [c] has been issued. *)
Definition record_call (c : Call) (r : Run) : Run :=
  {| app := app r; history := c :: history r; reads := reads r;
     successCount := successCount r |}.

(** [for (const x of l) { body x }] *)
Fixpoint for_of {A} (body : A -> M unit) (l : list A) : M unit :=
  match l with
  | [] => mret tt
  | x :: rest => body x ;; for_of body rest
  end.

(** *** State setters *)

Definition setIsLoading (b : bool) : M unit :=
  modify_app (λ s, {| isLoading := b; deletableItems := deletableItems s;
    selectedItems := selectedItems s; logs := logs s; error := error s;
    isModalOpen := isModalOpen s; exclusions := exclusions s |}).

Definition setDeletableItems (f : list JellyfinItem -> list JellyfinItem) : M unit :=
  modify_app (λ s, {| isLoading := isLoading s;
    deletableItems := f (deletableItems s);
    selectedItems := selectedItems s; logs := logs s; error := error s;
    isModalOpen := isModalOpen s; exclusions := exclusions s |}).

Definition setSelectedItems (f : gset string -> gset string) : M unit :=
  modify_app (λ s, {| isLoading := isLoading s;
    deletableItems := deletableItems s;
    selectedItems := f (selectedItems s); logs := logs s; error := error s;
    isModalOpen := isModalOpen s; exclusions := exclusions s |}).

Definition setLogs (f : list LogEntry -> list LogEntry) : M unit :=
  modify_app (λ s, {| isLoading := isLoading s;
    deletableItems := deletableItems s;
    selectedItems := selectedItems s; logs := f (logs s); error := error s;
    isModalOpen := isModalOpen s; exclusions := exclusions s |}).

Definition setError (e : option ErrorMsg) : M unit :=
  modify_app (λ s, {| isLoading := isLoading s;
    deletableItems := deletableItems s;
    selectedItems := selectedItems s; logs := logs s; error := e;
    isModalOpen := isModalOpen s; exclusions := exclusions s |}).

Definition setIsModalOpen (b : bool) : M unit :=
  modify_app (λ s, {| isLoading := isLoading s;
    deletableItems := deletableItems s;
    selectedItems := selectedItems s; logs := logs s; error := error s;
    isModalOpen := b; exclusions := exclusions s |}).

Definition setExclusions (f : list string -> list string) : M unit :=
  modify_app (λ s, {| isLoading := isLoading s;
    deletableItems := deletableItems s;
    selectedItems := selectedItems s; logs := logs s; error := error s;
    isModalOpen := isModalOpen s; exclusions := f (exclusions s) |}).

(** The local variable [successCount] of [handleDelete]. *)
Definition setSuccessCount (f : nat -> nat) : M unit := λ r,
  ({| app := app r; history := history r; reads := reads r;
      successCount := f (successCount r) |}, Ok tt).

Definition getSuccessCount : M nat := λ r, (r, Ok (successCount r)).

(* ===================================================================== *)
(** ** The handlers of the Automation component *)
(* ===================================================================== *)

Section Automation.

Variable svc : Services.
Variable settingsCtx : option SettingsContextType.

(** [new Date().getTime()] *)
Definition readClock : M Z := λ r,
  ({| app := app r; history := history r; reads := S (reads r);
      successCount := successCount r |}, Ok (clock svc (reads r))).

(** An awaited call: it is recorded, and rejects or resolves as the
    service answers after the calls made before it. *)
Definition await {A} (c : Call) (answer : list Call -> result A) : M A := λ r,
  (record_call c r, answer (history r)).

(** [setLogs(prev => [`[${time}] ${message}`, ...prev])] *)
Definition addLog (msg : LogMsg) : M unit :=
  now ← readClock;
  setLogs (λ prev, {| stamp := now; message := msg |} :: prev).

Definition handleScan : M unit :=
  match (settingsCtx ≫= settings) ≫= jellyfin with
  | None => setError (Some automationJellyfinNotConfigured)
  | Some _ =>
      setIsLoading true ;;
      setError None ;;
      setDeletableItems (λ _, []) ;;
      setSelectedItems (λ _, ∅) ;;
      addLog logScanStarted ;;
      try_catch
        (allItems ← await (CallGetItems ["Movie"; "Season"])
                      (λ h, getItems svc h ["Movie"; "Season"]);
         addLog (logScanFoundItems (length allItems)) ;;
         now ← readClock;
         s ← get_app;
         let itemsToFilter :=
           evaluate (exclusions s) (movieRetentionDays settingsCtx)
             (tvSeasonRetentionDays settingsCtx) now allItems in
         setDeletableItems (λ _, itemsToFilter) ;;
         setSelectedItems (λ _, list_to_set (Id <$> itemsToFilter)) ;;
         addLog (logScanComplete (length itemsToFilter)))
        (λ errorMessage,
           setError (Some (logScanError errorMessage)) ;;
           addLog (logError errorMessage)) ;;
      setIsLoading false
  end.

Definition handleExcludeItem (itemToExclude : JellyfinItem) : M unit :=
  setExclusions (λ prev, set_spread (prev ++ [Id itemToExclude])) ;;
  setDeletableItems
    (List.filter (λ item, negb (String.eqb (Id item) (Id itemToExclude)))) ;;
  setSelectedItems (λ prev, prev ∖ {[Id itemToExclude]}) ;;
  addLog (logItemExcluded (Name itemToExclude)).

Definition handleExcludeAll : M unit :=
  s ← get_app;
  if (length (deletableItems s) =? 0)%nat then mret tt
  else
    let idsToExclude := Id <$> deletableItems s in
    setExclusions (λ prev, set_spread (prev ++ idsToExclude)) ;;
    addLog (logAllExcluded (length idsToExclude)) ;;
    setDeletableItems (λ _, []) ;;
    setSelectedItems (λ _, ∅).

(** The inner loop over [episodesToDelete]; [ok] is the local flag
    [episodeDeletionSuccess]. *)
Fixpoint deleteEpisodes (item : JellyfinItem) (episodes : list SonarrEpisode)
    (ok : bool) : M bool :=
  match episodes with
  | [] => mret ok
  | episode :: rest =>
      ok' ← try_catch
              (await (CallDeleteSonarrEpisodeFile (episodeFileId episode))
                 (λ h, deleteSonarrEpisodeFile svc h (episodeFileId episode)) ;;
               mret ok)
              (λ episodeErrorMessage,
                 addLog (logDeletionFailedEpisode (SeriesName item) (Name item)
                           episodeErrorMessage) ;;
                 mret false);
      deleteEpisodes item rest ok'
  end.

(** [new Map(jellyfinParentSeries.map(s => [s.Id, s.ProviderIds?.Tvdb]))]:
    a later pair replaces an earlier one with the same key. *)
Definition seriesIdToProviderIdMap (jellyfinParentSeries : list JellyfinItem)
    : gmap string (option string) :=
  foldl (λ m s, <[Id s := ProviderIds s ≫= Tvdb]> m) ∅ jellyfinParentSeries.

(** [seriesIdToProviderIdMap.get(item.SeriesId!)] *)
Definition lookupTvdb (m : gmap string (option string)) (item : JellyfinItem)
    : option string :=
  match SeriesId item with
  | Some k => match m !! k with Some v => v | None => None end
  | None => None
  end.

(** [episodes.filter(e => e.seasonNumber === seasonNumber && e.hasFile)] *)
Definition episodesOfSeason (seasonNum : option Z) (episodes : list SonarrEpisode)
    : list SonarrEpisode :=
  List.filter (λ e, strict_eq_num (seasonNumber e) seasonNum && hasFile e)
    episodes.

(** The body of [for (const item of itemsToDelete)]. *)
Definition processItem (cfg : JccSettings) (radarrMovies : list RadarrMovie)
    (sonarrSeries : list SonarrSeries) (providers : gmap string (option string))
    (item : JellyfinItem) : M unit :=
  if String.eqb (Type_ item) "Movie" then
    if negb (configured (radarr cfg)) then
      addLog (logDeletionFailedRadarr (Name item))
    else
      match truthy_str (ProviderIds item ≫= Tmdb) with
      | None => addLog (logDeletionFailedTmdb (Name item))
      | Some tmdb =>
          match List.find (λ m, strict_eq_num (tmdbId m) (parseInt tmdb))
                  radarrMovies with
          | Some radarrMovie =>
              await (CallDeleteRadarrMovie (radarr_id radarrMovie))
                (λ h, deleteRadarrMovie svc h (radarr_id radarrMovie)) ;;
              addLog (logDeletionSuccessRadarr (Name item)) ;;
              setSuccessCount S
          | None => addLog (logDeletionInfoRadarr (Name item))
          end
      end
  else if String.eqb (Type_ item) "Season" then
    if negb (configured (sonarr cfg)) then
      addLog (logDeletionFailedSonarr (SeriesName item) (Name item))
    else
      match truthy_str (lookupTvdb providers item) with
      | None => addLog (logDeletionFailedTvdb (SeriesName item) (Name item))
      | Some tvdb =>
          match List.find (λ s, strict_eq_num (tvdbId s) (parseInt tvdb))
                  sonarrSeries with
          | Some sonarrSerie =>
              episodes ← await (CallGetSonarrEpisodes (sonarr_id sonarrSerie))
                           (λ h, getSonarrEpisodes svc h (sonarr_id sonarrSerie));
              match match_digits (Name item) with
              | None => addLog (logDeletionFailedSeasonNumber (Name item))
              | Some seasonNumberMatch =>
                  let seasonNum := parseInt seasonNumberMatch in
                  let episodesToDelete := episodesOfSeason seasonNum episodes in
                  if (length episodesToDelete =? 0)%nat then
                    addLog (logDeletionInfoSonarrFiles (SeriesName item) (Name item)) ;;
                    setSuccessCount S
                  else
                    episodeDeletionSuccess ← deleteEpisodes item episodesToDelete true;
                    if (episodeDeletionSuccess : bool) then
                      addLog (logDeletionSuccessSonarr (length episodesToDelete)
                                (SeriesName item) (Name item)) ;;
                      setSuccessCount S
                    else
                      addLog (logDeletionFailedSonarrMulti (SeriesName item)
                                (Name item))
              end
          | None => addLog (logDeletionInfoSonarrSeries (SeriesName item))
          end
      end
  else mret tt.

(** The [try] block of [handleDelete]: the three look-ups made once per
    run, then the loop over the batch. *)
Definition deleteBatch (cfg : JccSettings) (itemsToDelete : list JellyfinItem)
    : M unit :=
  radarrMovies ← (if configured (radarr cfg)
                  then await CallGetRadarrMovies (getRadarrMovies svc)
                  else mret []);
  sonarrSeries ← (if configured (sonarr cfg)
                  then await CallGetSonarrSeries (getSonarrSeries svc)
                  else mret []);
  let seasonItems :=
    List.filter (λ i, String.eqb (Type_ i) "Season") itemsToDelete in
  let seriesIds :=
    set_spread (omap (λ s, truthy_str (SeriesId s)) seasonItems) in
  jellyfinParentSeries ← (if (0 <? length seriesIds)%nat
                          then await (CallGetItemsByIds seriesIds)
                                 (λ h, getItemsByIds svc h seriesIds)
                          else mret []);
  for_of
    (processItem cfg radarrMovies sonarrSeries
       (seriesIdToProviderIdMap jellyfinParentSeries))
    itemsToDelete.

Definition handleDelete : M unit :=
  s ← get_app;
  match settingsCtx ≫= settings with
  | None => mret tt
  | Some cfg =>
      if (size (selectedItems s) =? 0)%nat then mret tt
      else
        setIsModalOpen false ;;
        setIsLoading true ;;
        addLog (logDeletionStarted (size (selectedItems s))) ;;
        let itemsToDelete :=
          List.filter (λ item, bool_decide (Id item ∈ selectedItems s))
            (deletableItems s) in
        setSuccessCount (λ _, 0%nat) ;;
        try_catch (deleteBatch cfg itemsToDelete)
          (λ errorMessage,
             setError (Some (logDeletionCriticalError errorMessage)) ;;
             addLog (logError errorMessage)) ;;
        count ← getSuccessCount;
        addLog (logDeletionComplete count (length itemsToDelete)) ;;
        setIsLoading false ;;
        handleScan
  end.

End Automation.

(* ===================================================================== *)
(** ** Vocabulary of the specification *)
(* ===================================================================== *)

(** The results a [DeletionOutcome] can have in the specification.  The
    component has no such type: it reports every item through one log
    message and counts the successes in [successCount]. *)
Inductive OutcomeResult : Type :=
  | Succeeded
  | SkippedUnconfigured
  | SkippedNoExternalId
  | SkippedNoMatch
  | SkippedNoSeasonNumber
  | PartiallyFailed
  | Failed.

(** The result a log message stands for; the messages of the scan, of the
    exclusion operations, of the run's start and end and of a single
    episode are not item outcomes. *)
Definition outcomeOf (msg : LogMsg) : option OutcomeResult :=
  match msg with
  | logDeletionSuccessRadarr _ => Some Succeeded
  | logDeletionSuccessSonarr _ _ _ => Some Succeeded
  | logDeletionInfoSonarrFiles _ _ => Some Succeeded
  | logDeletionFailedRadarr _ => Some SkippedUnconfigured
  | logDeletionFailedSonarr _ _ => Some SkippedUnconfigured
  | logDeletionFailedTmdb _ => Some SkippedNoExternalId
  | logDeletionFailedTvdb _ _ => Some SkippedNoExternalId
  | logDeletionInfoRadarr _ => Some SkippedNoMatch
  | logDeletionInfoSonarrSeries _ => Some SkippedNoMatch
  | logDeletionFailedSeasonNumber _ => Some SkippedNoSeasonNumber
  | logDeletionFailedSonarrMulti _ _ => Some PartiallyFailed
  | logError _ => Some Failed
  | _ => None
  end.

(** The item outcomes of a log, oldest first. *)
Definition outcomes (log : list LogEntry) : list OutcomeResult :=
  omap (λ e, outcomeOf (message e)) (rev log).

Definition is_ok {A} (a : result A) : bool :=
  match a with Ok _ => true | Throw _ => false end.

(** The answers the series manager gives to the file deletions of
    [episodes], issued one after the other from the call history [h]. *)
Fixpoint episodeAnswers (svc : Services) (h : list Call)
    (episodes : list SonarrEpisode) : list (result unit) :=
  match episodes with
  | [] => []
  | e :: rest =>
      deleteSonarrEpisodeFile svc h (episodeFileId e)
      :: episodeAnswers svc (CallDeleteSonarrEpisodeFile (episodeFileId e) :: h) rest
  end.

(** The per-episode failure messages of an item, in the order of the calls. *)
Definition episodeFailures (item : JellyfinItem) (answers : list (result unit))
    : list LogMsg :=
  omap (λ a, match a with
             | Throw e => Some (logDeletionFailedEpisode (SeriesName item)
                                  (Name item) e)
             | Ok _ => None
             end) answers.

Definition isDeleteCall (c : Call) : bool :=
  match c with
  | CallDeleteRadarrMovie _ | CallDeleteSonarrEpisodeFile _ => true
  | _ => false
  end.

(** A computation is stable for a relation between the state before and
    the state after when every run is related, however it ends. *)
Definition stable (R : Run -> Run -> Prop) {A} (m : M A) : Prop :=
  ∀ r, R r (fst (m r)).

(** The run leaves the exclusion list as it was. *)
Definition keeps_exclusions (r r' : Run) : Prop :=
  exclusions (app r') = exclusions (app r).

(** The run only adds lines in front of the log. *)
Definition extends_log (r r' : Run) : Prop :=
  ∃ added, logs (app r') = (added ++ logs (app r))%list.

(** The messages of a log that are item outcomes, oldest first. *)
Definition outcomeLines (log : list LogEntry) : list LogMsg :=
  List.filter (λ m, bool_decide (is_Some (outcomeOf m))) (rev (message <$> log)).

(* ===================================================================== *)
(** ** Scenarios *)
(* ===================================================================== *)

Module Scenario.

Definition service : ServiceSettings := {| url := "http://host"; apiKey := "key" |}.

(** Policy {movie: 7, season: 28}; the catalog and both acquisition
    managers are configured. *)
Definition cfg : JccSettings :=
  {| jellyfin := Some service; radarr := Some service; sonarr := Some service;
     automation := Some {| movieRetentionDays_setting := Some 7;
                           tvSeasonRetentionDays_setting := Some 28 |} |}.

Definition ctx : option SettingsContextType := Some {| settings := Some cfg |}.

(** A deployment whose settings hold 0 days for movies and no value for
    seasons. *)
Definition ctxZero : option SettingsContextType :=
  Some {| settings := Some
    {| jellyfin := Some service; radarr := None; sonarr := None;
       automation := Some {| movieRetentionDays_setting := Some 0;
                             tvSeasonRetentionDays_setting := None |} |} |}.

Definition now : Z := 1700000000000.

(** A Movie created [days] days before [t]. *)
Definition movie (id externalId : string) (t days : Z) : JellyfinItem :=
  {| Id := id; Name := id; Type_ := "Movie";
     DateCreated := Some (t - days * msPerDay);
     SeriesId := None; SeriesName := None;
     ProviderIds := Some {| Tmdb := Some externalId; Tvdb := None |} |}.

(** The movie record ["r1"] of the movie manager. *)
Definition record (externalMovieId : jsval) : RadarrMovie :=
  {| radarr_id := JStr "r1"; tmdbId := externalMovieId |}.

Definition movieA : JellyfinItem := movie "A" "1" now 10.
Definition movieB : JellyfinItem := movie "B" "2" now 10.
Definition movieC : JellyfinItem := movie "C" "3" now 10.

Definition movieRecords : list RadarrMovie :=
  [ {| radarr_id := JNum 11; tmdbId := JNum 1 |};
    {| radarr_id := JNum 12; tmdbId := JNum 2 |};
    {| radarr_id := JNum 13; tmdbId := JNum 3 |} ].

(** "Season 2" of the series ["s1"], created 40 days ago. *)
Definition season2 : JellyfinItem :=
  {| Id := "B2"; Name := "Season 2"; Type_ := "Season";
     DateCreated := Some (now - 40 * msPerDay);
     SeriesId := Some "s1"; SeriesName := Some "Show";
     ProviderIds := None |}.

Definition parentSeries : JellyfinItem :=
  {| Id := "s1"; Name := "Show"; Type_ := "Series";
     DateCreated := Some (now - 90 * msPerDay);
     SeriesId := None; SeriesName := None;
     ProviderIds := Some {| Tmdb := None; Tvdb := Some "77" |} |}.

Definition seriesRecord : SonarrSeries :=
  {| sonarr_id := JNum 5; tvdbId := JNum 77 |}.

(** Two episodes of season 2 with a file, one of season 1, and one of
    season 2 whose file is gone. *)
Definition episodesWithFiles : list SonarrEpisode :=
  [ {| seasonNumber := JNum 2; hasFile := true; episodeFileId := JNum 101 |};
    {| seasonNumber := JNum 1; hasFile := true; episodeFileId := JNum 90 |};
    {| seasonNumber := JNum 2; hasFile := true; episodeFileId := JNum 102 |};
    {| seasonNumber := JNum 2; hasFile := false; episodeFileId := JNum 0 |} ].

Definition episodesWithoutFiles : list SonarrEpisode :=
  [ {| seasonNumber := JNum 1; hasFile := true; episodeFileId := JNum 90 |};
    {| seasonNumber := JNum 2; hasFile := false; episodeFileId := JNum 0 |} ].

(** Services that answer every listing with the given records and reject
    the deletion of the identifiers in [failing]. *)
Definition services (catalog : list JellyfinItem) (movies : list RadarrMovie)
    (episodes : list SonarrEpisode) (failing : list jsval) : Services :=
  {| getItems := λ _ _, Ok catalog;
     getItemsByIds := λ _ _, Ok [parentSeries];
     getRadarrMovies := λ _, Ok movies;
     getSonarrSeries := λ _, Ok [seriesRecord];
     getSonarrEpisodes := λ _ _, Ok episodes;
     deleteRadarrMovie := λ _ id,
       if bool_decide (id ∈ failing) then Throw "HTTP 500" else Ok tt;
     deleteSonarrEpisodeFile := λ _ id,
       if bool_decide (id ∈ failing) then Throw "HTTP 500" else Ok tt;
     clock := λ n, now + Z.of_nat n |}.

(** The state after a scan found [items], all of them selected, with the
    given exclusion list and an empty log. *)
Definition scanned (items : list JellyfinItem) (excluded : list string) : Run :=
  {| app := {| isLoading := false; deletableItems := items;
               selectedItems := list_to_set (Id <$> items); logs := [];
               error := None; isModalOpen := true; exclusions := excluded |};
     history := []; reads := 0; successCount := 0 |}.

Definition threeMovies : list JellyfinItem := [movieA; movieB; movieC].

(** A run over three movies in which the deletion of the second record is
    rejected. *)
Definition abortedRun : Run :=
  fst (handleDelete (services threeMovies movieRecords [] [JNum 12]) ctx
         (scanned threeMovies [])).

(** A run over two movies, both deleted. *)
Definition twoMoviesRun : Run :=
  fst (handleDelete (services [] movieRecords [] []) ctx
         (scanned [movieA; movieB] [])).

(** The loop body of that run, and the state once A has been processed. *)
Definition twoMoviesBody : JellyfinItem → M unit :=
  processItem (services [] movieRecords [] []) cfg movieRecords [] ∅.

Definition afterMovieA : Run :=
  fst (for_of twoMoviesBody [movieA] (scanned [movieA; movieB] [])).

(** The run of the specification's movie scenario, external id ["tt1"]. *)
Definition tt1Run : Run :=
  fst (handleDelete (services [] [record (JStr "tt1")] [] []) ctx
         (scanned [movie "A" "tt1" now 10] [])).

(** A run over "Season 2" in which the deletion of the files in [failing]
    is rejected. *)
Definition seasonRun (failing : list jsval) : Run :=
  fst (handleDelete (services [] [] episodesWithFiles failing) ctx
         (scanned [season2] [])).

End Scenario.

(* ===================================================================== *)
(** ** Properties of the retention policy evaluator *)
(* ===================================================================== *)

Lemma num_gt_spec (age : Q) (days : Z) :
  num_gt (Some age) days = true ↔ (inject_Z days < age)%Q.
Proof.
  unfold num_gt. rewrite negb_true_iff. split.
  - intros Hle. apply Qnot_le_lt. intros H.
    apply Qle_bool_iff in H. congruence.
  - intros Hlt. destruct (Qle_bool age (inject_Z days)) eqn:E; [|done].
    apply Qle_bool_iff in E. exfalso. exact (Qlt_not_le _ _ Hlt E).
Qed.

Lemma num_gt_equal (age : Q) (days : Z) :
  (age == inject_Z days)%Q → num_gt (Some age) days = false.
Proof.
  intros Heq. destruct (num_gt (Some age) days) eqn:E; [|done].
  apply num_gt_spec in E. rewrite Heq in E.
  exfalso. exact (Qlt_irrefl _ E).
Qed.

(** The age exceeds the threshold exactly when more than [days] whole days
    of milliseconds lie between creation and now. *)
Lemma num_gt_millis (now created days : Z) :
  num_gt (ageInDays now (Some created)) days = true ↔
  days * msPerDay < now - created.
Proof.
  cbn [ageInDays fmap option_fmap option_map]. rewrite num_gt_spec.
  change msPerDay with 86400000.
  unfold Qlt, Qdiv, Qmult, Qinv, inject_Z. cbn. lia.
Qed.

Lemma isDeletable_not_excluded (excl : list string) (movieDays seasonDays now : Z)
    (item : JellyfinItem) :
  Id item ∉ excl →
  isDeletable excl movieDays seasonDays now item =
    (String.eqb (Type_ item) "Movie"
       && num_gt (ageInDays now (DateCreated item)) movieDays)
    || (String.eqb (Type_ item) "Season"
       && num_gt (ageInDays now (DateCreated item)) seasonDays).
Proof.
  intros Hx. unfold isDeletable. rewrite bool_decide_eq_false_2 by done.
  destruct (_ && _); [done|]. destruct (_ && _); done.
Qed.

Lemma isDeletable_iff (excl : list string) (movieDays seasonDays now : Z)
    (item : JellyfinItem) :
  Id item ∉ excl →
  isDeletable excl movieDays seasonDays now item = true ↔
  ∃ age, ageInDays now (DateCreated item) = Some age ∧
    ((Type_ item = "Movie" ∧ (inject_Z movieDays < age)%Q) ∨
     (Type_ item = "Season" ∧ (inject_Z seasonDays < age)%Q)).
Proof.
  intros Hx. rewrite (isDeletable_not_excluded _ _ _ _ _ Hx).
  rewrite orb_true_iff, !andb_true_iff. split.
  - intros [[Hk Hgt]|[Hk Hgt]]; apply String.eqb_eq in Hk;
      (destruct (ageInDays now (DateCreated item)) as [age|] eqn:Ea;
       [|discriminate Hgt]);
      apply num_gt_spec in Hgt; exists age; split; auto.
  - intros [age [Ea [[Hk Hlt]|[Hk Hlt]]]]; rewrite Ea;
      apply num_gt_spec in Hlt; rewrite Hk, Hlt; auto.
Qed.

Lemma elem_of_evaluate (excl : list string) (movieDays seasonDays now : Z)
    (allItems : list JellyfinItem) (item : JellyfinItem) :
  item ∈ evaluate excl movieDays seasonDays now allItems ↔
  item ∈ allItems ∧ isDeletable excl movieDays seasonDays now item = true.
Proof. unfold evaluate. rewrite !list_elem_of_In. apply filter_In. Qed.

(** C2: the age of an entry created at [created] is
    [(now - created) / 86400000] days.  An entry of the catalog that is not
    excluded is in the output of the evaluator exactly when it is a Movie
    whose age is strictly greater than the movie threshold or a Season
    whose age is strictly greater than the season threshold, that is, when
    more than the threshold's days of milliseconds lie between its creation
    and now; an entry whose age equals its threshold is not eligible, nor
    is an entry of another kind or one whose date is invalid. *)
Theorem evaluate_strictly_older (excl : list string)
    (movieDays seasonDays now : Z) (allItems : list JellyfinItem)
    (item : JellyfinItem) :
  item ∈ allItems →
  Id item ∉ excl →
  (∀ created, DateCreated item = Some created →
     ageInDays now (DateCreated item)
     = Some (inject_Z (now - created) / inject_Z 86400000)%Q
     ∧ (item ∈ evaluate excl movieDays seasonDays now allItems ↔
          (Type_ item = "Movie"
           ∧ (inject_Z movieDays
              < inject_Z (now - created) / inject_Z 86400000)%Q)
          ∨ (Type_ item = "Season"
             ∧ (inject_Z seasonDays
                < inject_Z (now - created) / inject_Z 86400000)%Q))
     ∧ (item ∈ evaluate excl movieDays seasonDays now allItems ↔
          (Type_ item = "Movie" ∧ movieDays * 86400000 < now - created)
          ∨ (Type_ item = "Season" ∧ seasonDays * 86400000 < now - created))
     ∧ (Type_ item = "Movie" → now - created = movieDays * 86400000 →
        item ∉ evaluate excl movieDays seasonDays now allItems)
     ∧ (Type_ item = "Season" → now - created = seasonDays * 86400000 →
        item ∉ evaluate excl movieDays seasonDays now allItems))
  ∧ (DateCreated item = None →
     item ∉ evaluate excl movieDays seasonDays now allItems)
  ∧ (Type_ item ≠ "Movie" → Type_ item ≠ "Season" →
     item ∉ evaluate excl movieDays seasonDays now allItems).
Proof.
  intros Hin Hx.
  assert (Hms : ∀ created, DateCreated item = Some created →
            item ∈ evaluate excl movieDays seasonDays now allItems ↔
            (Type_ item = "Movie" ∧ movieDays * 86400000 < now - created)
            ∨ (Type_ item = "Season" ∧ seasonDays * 86400000 < now - created)).
  { intros created Hc.
    rewrite elem_of_evaluate, (isDeletable_not_excluded _ _ _ _ _ Hx), Hc.
    rewrite orb_true_iff, !andb_true_iff, !num_gt_millis, !String.eqb_eq.
    change msPerDay with 86400000. tauto. }
  split; [|split].
  - intros created Hc. split; [by rewrite Hc|].
    split; [|split; [by apply Hms|]].
    + rewrite (Hms created Hc).
      rewrite <- !(num_gt_millis now created), <- !num_gt_spec.
      reflexivity.
    + split; intros Hk Heq; rewrite (Hms created Hc); intros [[Hk' H]|[Hk' H]];
        first [lia | rewrite Hk in Hk'; discriminate].
  - intros Hnone [_ Ht]%elem_of_evaluate.
    rewrite (isDeletable_not_excluded _ _ _ _ _ Hx), Hnone in Ht.
    cbn in Ht. rewrite !andb_false_r in Ht. discriminate.
  - intros Hm Hs [_ Ht]%elem_of_evaluate.
    apply (isDeletable_iff _ _ _ _ _ Hx) in Ht.
    destruct Ht as [age [_ [[Hk _]|[Hk _]]]]; contradiction.
Qed.

(** C3: an entry whose identifier is in the exclusion set is rejected by
    the filter whatever its kind and creation date are (the membership
    test is the first thing the filter does), and so it is in the output
    of the evaluator for no catalog. *)
Theorem excluded_never_eligible (excl : list string)
    (movieDays seasonDays now : Z) (item : JellyfinItem) :
  Id item ∈ excl →
  isDeletable excl movieDays seasonDays now item = false
  ∧ ∀ allItems, item ∉ evaluate excl movieDays seasonDays now allItems.
Proof.
  intros Hin.
  assert (Hf : isDeletable excl movieDays seasonDays now item = false).
  { unfold isDeletable. rewrite bool_decide_eq_true_2 by done. reflexivity. }
  split; [exact Hf|].
  intros allItems Hmem. apply elem_of_evaluate in Hmem as [_ Ht].
  congruence.
Qed.

Lemma or_default_nonzero (x : option Z) (d : Z) : d ≠ 0 → or_default x d ≠ 0.
Proof.
  intros Hd. unfold or_default. destruct x as [v|]; [|done].
  destruct (Z.eqb_spec v 0); done.
Qed.

Lemma or_default_falsy (x : option Z) (d : Z) :
  x = None ∨ x = Some 0 → or_default x d = d.
Proof. intros [->| ->]; reflexivity. Qed.

Lemma or_default_truthy (v d : Z) : v ≠ 0 → or_default (Some v) d = v.
Proof. intros Hv. unfold or_default. destruct (Z.eqb_spec v 0); done. Qed.

(** C10: a threshold that is absent from the settings or set to 0 is
    replaced by the default, 7 days for movies and 28 days for seasons; any
    other configured value is used as it is; so the threshold in effect is
    never 0. *)
Theorem retention_defaults (ctx : option SettingsContextType) :
  (automationOf ctx ≫= movieRetentionDays_setting = None
   ∨ automationOf ctx ≫= movieRetentionDays_setting = Some 0 →
   movieRetentionDays ctx = 7)
  ∧ (automationOf ctx ≫= tvSeasonRetentionDays_setting = None
     ∨ automationOf ctx ≫= tvSeasonRetentionDays_setting = Some 0 →
     tvSeasonRetentionDays ctx = 28)
  ∧ (∀ d, d ≠ 0 →
       (automationOf ctx ≫= movieRetentionDays_setting = Some d →
        movieRetentionDays ctx = d)
       ∧ (automationOf ctx ≫= tvSeasonRetentionDays_setting = Some d →
          tvSeasonRetentionDays ctx = d))
  ∧ movieRetentionDays ctx ≠ 0
  ∧ tvSeasonRetentionDays ctx ≠ 0.
Proof.
  unfold movieRetentionDays, tvSeasonRetentionDays.
  repeat split.
  - apply or_default_falsy.
  - apply or_default_falsy.
  - intros ->. by apply or_default_truthy.
  - intros ->. by apply or_default_truthy.
  - by apply or_default_nonzero.
  - by apply or_default_nonzero.
Qed.

(* ===================================================================== *)
(** ** Reasoning about runs *)
(* ===================================================================== *)

Lemma bind_run {A B} (m : M A) (f : A → M B) (r : Run) :
  (m ≫= f) r =
  match m r with
  | (r', Ok a) => f a r'
  | (r', Throw e) => (r', Throw e)
  end.
Proof. reflexivity. Qed.

Lemma for_of_app {A} (body : A → M unit) (pre post : list A) (r : Run) :
  for_of body (pre ++ post)%list r =
  match for_of body pre r with
  | (r1, Ok _) => for_of body post r1
  | (r1, Throw e) => (r1, Throw e)
  end.
Proof.
  revert r. induction pre as [|x pre IH]; intros r; [reflexivity|].
  rewrite <- app_comm_cons.
  change (for_of body (x :: pre ++ post)%list)
    with (body x ;; for_of body (pre ++ post)%list).
  change (for_of body (x :: pre)) with (body x ;; for_of body pre).
  rewrite !bind_run.
  destruct (body x r) as [r' [[]|e]]; [apply IH|reflexivity].
Qed.

Section Frame.

Variable R : Run → Run → Prop.
Hypothesis R_refl : ∀ r, R r r.
Hypothesis R_trans : ∀ a b c, R a b → R b c → R a c.

Lemma stable_ret {A} (a : A) : stable R (mret a : M A).
Proof. intros r. apply R_refl. Qed.

Lemma stable_bind {A B} (m : M A) (f : A → M B) :
  stable R m → (∀ a, stable R (f a)) → stable R (m ≫= f).
Proof.
  intros Hm Hf r. rewrite bind_run. specialize (Hm r).
  destruct (m r) as [r' [a|e]]; [|exact Hm].
  exact (R_trans _ _ _ Hm (Hf a r')).
Qed.

Lemma stable_try_catch {A} (m : M A) (h : string → M A) :
  stable R m → (∀ e, stable R (h e)) → stable R (try_catch m h).
Proof.
  intros Hm Hh r. unfold try_catch. specialize (Hm r).
  destruct (m r) as [r' [a|e]]; [exact Hm|].
  exact (R_trans _ _ _ Hm (Hh e r')).
Qed.

Lemma stable_for_of {A} (body : A → M unit) (l : list A) :
  (∀ x, stable R (body x)) → stable R (for_of body l).
Proof.
  intros Hb. induction l as [|x l IH]; cbn [for_of].
  - apply stable_ret.
  - apply stable_bind; auto.
Qed.

Lemma stable_get_app : stable R get_app.
Proof. intros r. apply R_refl. Qed.

Lemma stable_getSuccessCount : stable R getSuccessCount.
Proof. intros r. apply R_refl. Qed.

End Frame.

(** Splits a handler into its primitive steps. *)
Ltac frame_step :=
  lazymatch goal with
  | |- stable _ (mret _) => apply stable_ret
  | |- stable _ get_app => apply stable_get_app
  | |- stable _ getSuccessCount => apply stable_getSuccessCount
  | |- stable _ (mbind _ _) => apply stable_bind; [| |intros ?]
  | |- stable _ (try_catch _ _) => apply stable_try_catch; [| |intros ?]
  | |- stable _ (for_of _ _) => apply stable_for_of; [| |intros ?]
  | |- stable _ (match ?x with _ => _ end) => destruct x
  end.

Lemma keeps_exclusions_refl (r : Run) : keeps_exclusions r r.
Proof. reflexivity. Qed.

Lemma keeps_exclusions_trans (a b c : Run) :
  keeps_exclusions a b → keeps_exclusions b c → keeps_exclusions a c.
Proof. unfold keeps_exclusions. congruence. Qed.

Lemma extends_log_refl (r : Run) : extends_log r r.
Proof. by exists []. Qed.

Lemma extends_log_trans (a b c : Run) :
  extends_log a b → extends_log b c → extends_log a c.
Proof.
  intros [x Hx] [y Hy]. exists (y ++ x)%list.
  rewrite Hy, Hx. apply app_assoc.
Qed.

Create HintDb frame.
#[local] Hint Resolve keeps_exclusions_refl keeps_exclusions_trans
  extends_log_refl extends_log_trans : frame.

(** A step that does not touch the exclusions, or the log, at all. *)
Ltac frame_leaf :=
  first
    [ by (intros ?; reflexivity)
    | by (intros ?; exists []; reflexivity)
    | by (intros ?; eexists [_]; reflexivity) ].

Ltac frame := repeat (first [frame_step | frame_leaf | cbv zeta]); eauto with frame.

Lemma addLog_log (svc : Services) (msg : LogMsg) (r : Run) :
  addLog svc msg r =
  ({| app := {| isLoading := isLoading (app r);
                deletableItems := deletableItems (app r);
                selectedItems := selectedItems (app r);
                logs := {| stamp := clock svc (reads r); message := msg |}
                        :: logs (app r);
                error := error (app r);
                isModalOpen := isModalOpen (app r);
                exclusions := exclusions (app r) |};
      history := history r; reads := S (reads r);
      successCount := successCount r |}, Ok tt).
Proof. reflexivity. Qed.

Lemma addLog_stable_exclusions (svc : Services) (msg : LogMsg) :
  stable keeps_exclusions (addLog svc msg).
Proof. intros r. rewrite addLog_log. reflexivity. Qed.

Lemma addLog_stable_log (svc : Services) (msg : LogMsg) :
  stable extends_log (addLog svc msg).
Proof. intros r. rewrite addLog_log. by eexists [_]. Qed.

#[local] Hint Resolve addLog_stable_exclusions addLog_stable_log : frame.

Lemma deleteEpisodes_stable_exclusions (svc : Services) (item : JellyfinItem)
    (episodes : list SonarrEpisode) (ok : bool) :
  stable keeps_exclusions (deleteEpisodes svc item episodes ok).
Proof.
  revert ok. induction episodes as [|e rest IH]; intros ok;
    cbn [deleteEpisodes]; frame.
Qed.

Lemma deleteEpisodes_stable_log (svc : Services) (item : JellyfinItem)
    (episodes : list SonarrEpisode) (ok : bool) :
  stable extends_log (deleteEpisodes svc item episodes ok).
Proof.
  revert ok. induction episodes as [|e rest IH]; intros ok;
    cbn [deleteEpisodes]; frame.
Qed.

#[local] Hint Resolve deleteEpisodes_stable_exclusions
  deleteEpisodes_stable_log : frame.

Lemma processItem_stable_exclusions (svc : Services) (cfg : JccSettings)
    (movies : list RadarrMovie) (series : list SonarrSeries)
    (providers : gmap string (option string)) (item : JellyfinItem) :
  stable keeps_exclusions (processItem svc cfg movies series providers item).
Proof. unfold processItem. frame. Qed.

Lemma processItem_stable_log (svc : Services) (cfg : JccSettings)
    (movies : list RadarrMovie) (series : list SonarrSeries)
    (providers : gmap string (option string)) (item : JellyfinItem) :
  stable extends_log (processItem svc cfg movies series providers item).
Proof. unfold processItem. frame. Qed.

#[local] Hint Resolve processItem_stable_exclusions
  processItem_stable_log : frame.

Lemma handleScan_stable_exclusions (svc : Services)
    (ctx : option SettingsContextType) :
  stable keeps_exclusions (handleScan svc ctx).
Proof. unfold handleScan. frame. Qed.

Lemma handleScan_stable_log (svc : Services)
    (ctx : option SettingsContextType) :
  stable extends_log (handleScan svc ctx).
Proof. unfold handleScan. frame. Qed.

#[local] Hint Resolve handleScan_stable_exclusions handleScan_stable_log : frame.

Lemma deleteBatch_stable_exclusions (svc : Services) (cfg : JccSettings)
    (items : list JellyfinItem) :
  stable keeps_exclusions (deleteBatch svc cfg items).
Proof. unfold deleteBatch. frame. Qed.

Lemma deleteBatch_stable_log (svc : Services) (cfg : JccSettings)
    (items : list JellyfinItem) :
  stable extends_log (deleteBatch svc cfg items).
Proof. unfold deleteBatch. frame. Qed.

#[local] Hint Resolve deleteBatch_stable_exclusions deleteBatch_stable_log : frame.

Lemma handleDelete_stable_log (svc : Services)
    (ctx : option SettingsContextType) :
  stable extends_log (handleDelete svc ctx).
Proof. unfold handleDelete. frame. Qed.

(** C9: a deletion run, the rescan it ends with included, leaves the
    exclusion list exactly as it found it, whatever the services answer and
    however the items end. *)
Theorem handleDelete_keeps_exclusions (svc : Services)
    (ctx : option SettingsContextType) (r : Run) :
  exclusions (app (fst (handleDelete svc ctx r))) = exclusions (app r).
Proof.
  revert r. change (stable keeps_exclusions (handleDelete svc ctx)).
  unfold handleDelete. frame.
Qed.

(* ===================================================================== *)
(** ** The log *)
(* ===================================================================== *)

(** C7 (as the code has it): [addLog] stamps every message with the time
    it reads and puts the line in front of the log; a deletion run never
    changes or drops a line that was there, it only adds lines in front;
    hence the log is newest first: the lines of the items processed later
    stand before the lines of the items processed earlier. *)
Theorem log_is_newest_first (svc : Services) (ctx : option SettingsContextType) :
  (∀ msg r,
     logs (app (fst (addLog svc msg r))) =
     {| stamp := clock svc (reads r); message := msg |} :: logs (app r))
  ∧ (∀ r, ∃ added,
       logs (app (fst (handleDelete svc ctx r))) = (added ++ logs (app r))%list)
  ∧ (∀ cfg movies series providers pre post r r1,
       for_of (processItem svc cfg movies series providers) pre r = (r1, Ok tt) →
       ∃ earlier later,
         logs (app r1) = (earlier ++ logs (app r))%list
         ∧ for_of (processItem svc cfg movies series providers)
             (pre ++ post)%list r =
           for_of (processItem svc cfg movies series providers) post r1
         ∧ logs (app (fst (for_of (processItem svc cfg movies series providers)
                             post r1))) =
           (later ++ earlier ++ logs (app r))%list).
Proof.
  split; [|split].
  - intros msg r. rewrite addLog_log. reflexivity.
  - intros r. apply (handleDelete_stable_log svc ctx r).
  - intros cfg movies series providers pre post r r1 Hpre.
    assert (Hs : ∀ l, stable extends_log
                        (for_of (processItem svc cfg movies series providers) l)).
    { intros l. apply stable_for_of; eauto with frame. }
    destruct (Hs pre r) as [earlier He]. rewrite Hpre in He. cbn [fst] in He.
    destruct (Hs post r1) as [later Hl].
    exists earlier, later. split; [exact He|]. split.
    + rewrite for_of_app, Hpre. reflexivity.
    + rewrite Hl, He. reflexivity.
Qed.

(* ===================================================================== *)
(** ** Deleting the files of a season *)
(* ===================================================================== *)

Lemma deleteEpisodes_cons (svc : Services) (item : JellyfinItem)
    (e : SonarrEpisode) (rest : list SonarrEpisode) (ok : bool) (r : Run) :
  deleteEpisodes svc item (e :: rest) ok r =
  match deleteSonarrEpisodeFile svc (history r) (episodeFileId e) with
  | Ok _ =>
      deleteEpisodes svc item rest ok
        (record_call (CallDeleteSonarrEpisodeFile (episodeFileId e)) r)
  | Throw msg =>
      deleteEpisodes svc item rest false
        (fst (addLog svc
                (logDeletionFailedEpisode (SeriesName item) (Name item) msg)
                (record_call (CallDeleteSonarrEpisodeFile (episodeFileId e)) r)))
  end.
Proof.
  cbn [deleteEpisodes]. rewrite bind_run. unfold try_catch at 1.
  rewrite bind_run. unfold await at 1.
  destruct (deleteSonarrEpisodeFile svc (history r) (episodeFileId e));
    reflexivity.
Qed.

(** Every file deletion of the list is issued, in order, whatever the
    earlier ones answered; the flag stays up exactly when every answer is a
    success; every failure leaves one line in the log. *)
Lemma deleteEpisodes_spec (svc : Services) (item : JellyfinItem)
    (episodes : list SonarrEpisode) (ok : bool) (r : Run) :
  ∃ r',
    deleteEpisodes svc item episodes ok r =
      (r', Ok (ok && forallb is_ok (episodeAnswers svc (history r) episodes)))
    ∧ history r' =
        (rev ((λ e, CallDeleteSonarrEpisodeFile (episodeFileId e)) <$> episodes)
         ++ history r)%list
    ∧ message <$> logs (app r') =
        (rev (episodeFailures item (episodeAnswers svc (history r) episodes))
         ++ (message <$> logs (app r)))%list
    ∧ successCount r' = successCount r.
Proof.
  revert ok r. induction episodes as [|e rest IH]; intros ok r.
  - exists r. cbn. rewrite andb_true_r. done.
  - rewrite deleteEpisodes_cons. cbn [episodeAnswers forallb fmap list_fmap].
    destruct (deleteSonarrEpisodeFile svc (history r) (episodeFileId e))
      as [[]|msg] eqn:Ea.
    + destruct (IH ok (record_call
                         (CallDeleteSonarrEpisodeFile (episodeFileId e)) r))
        as (r' & Hrun & Hh & Hl & Hc).
      exists r'. cbn [history record_call app successCount] in *.
      rewrite Hrun, Hh, Hl, Hc. cbn [is_ok andb rev].
      rewrite <- app_assoc. cbn [episodeFailures omap list_omap].
      done.
    + set (r1 := fst (addLog svc
                        (logDeletionFailedEpisode (SeriesName item)
                           (Name item) msg)
                        (record_call
                           (CallDeleteSonarrEpisodeFile (episodeFileId e)) r))).
      destruct (IH false r1) as (r' & Hrun & Hh & Hl & Hc).
      exists r'. rewrite Hrun, Hh, Hl, Hc.
      subst r1. rewrite addLog_log.
      cbn [fst history record_call app successCount logs is_ok andb rev
           episodeFailures omap list_omap fmap list_fmap message].
      rewrite andb_false_r, <- !app_assoc. done.
Qed.

Lemma episodeFailures_length (item : JellyfinItem) (answers : list (result unit)) :
  length (episodeFailures item answers) =
  length (List.filter (λ a, negb (is_ok a)) answers).
Proof.
  induction answers as [|[[]|msg] rest IH]; cbn; [done|exact IH|].
  by rewrite <- IH.
Qed.

Lemma episodeFailures_nil (item : JellyfinItem) (answers : list (result unit)) :
  forallb is_ok answers = true → episodeFailures item answers = [].
Proof.
  induction answers as [|[[]|msg] rest IH]; cbn; [done|exact IH|done].
Qed.

Section SeasonItem.

Variable svc : Services.
Variable cfg : JccSettings.
Variable movies : list RadarrMovie.
Variable series : list SonarrSeries.
Variable providers : gmap string (option string).
Variable item : JellyfinItem.
Variable tvdb : string.
Variable sonarrSerie : SonarrSeries.
Variable episodes : list SonarrEpisode.
Variable digits : string.
Variable r : Run.

(** The item is a Season, the series manager is configured, the parent
    series has an external identifier, a series record carries it, the
    episode list is fetched, and the name holds a season number. *)
Hypothesis Hkind : Type_ item = "Season".
Hypothesis Hconfigured : configured (sonarr cfg) = true.
Hypothesis Htvdb : truthy_str (lookupTvdb providers item) = Some tvdb.
Hypothesis Hserie :
  List.find (λ s, strict_eq_num (tvdbId s) (parseInt tvdb)) series
  = Some sonarrSerie.
Hypothesis Hepisodes :
  getSonarrEpisodes svc (history r) (sonarr_id sonarrSerie) = Ok episodes.
Hypothesis Hdigits : match_digits (Name item) = Some digits.

Lemma processItem_season :
  processItem svc cfg movies series providers item r =
  (if (length (episodesOfSeason (parseInt digits) episodes) =? 0)%nat then
     addLog svc (logDeletionInfoSonarrFiles (SeriesName item) (Name item)) ;;
     setSuccessCount S
   else
     episodeDeletionSuccess ←
       deleteEpisodes svc item (episodesOfSeason (parseInt digits) episodes) true;
     if (episodeDeletionSuccess : bool) then
       addLog svc (logDeletionSuccessSonarr
                     (length (episodesOfSeason (parseInt digits) episodes))
                     (SeriesName item) (Name item)) ;;
       setSuccessCount S
     else
       addLog svc (logDeletionFailedSonarrMulti (SeriesName item) (Name item)))
    (record_call (CallGetSonarrEpisodes (sonarr_id sonarrSerie)) r).
Proof.
  unfold processItem. rewrite Hkind. cbn [String.eqb Ascii.eqb Bool.eqb].
  rewrite Hconfigured. cbn [negb]. rewrite Htvdb, Hserie.
  rewrite bind_run. unfold await at 1. rewrite Hepisodes, Hdigits.
  reflexivity.
Qed.


(** C5 (as the code has it): the file deletions of a season are all
    issued, in order, whatever the earlier ones answered.  When all of them
    succeed the item gets the message that stands for Succeeded, with the
    number of files, and is counted as a success.  When one or more fail
    the item gets the message that stands for PartiallyFailed, which names
    the series and the season and carries no count; each failed call has
    left one line of its own, with the error message, before it. *)
Theorem season_files_deleted_independently :
  episodesOfSeason (parseInt digits) episodes ≠ [] →
  ∃ r',
    processItem svc cfg movies series providers item r = (r', Ok tt)
    ∧ history r' =
        (rev ((λ e, CallDeleteSonarrEpisodeFile (episodeFileId e))
                <$> episodesOfSeason (parseInt digits) episodes)
         ++ CallGetSonarrEpisodes (sonarr_id sonarrSerie) :: history r)%list
    ∧ (forallb is_ok
         (episodeAnswers svc
            (CallGetSonarrEpisodes (sonarr_id sonarrSerie) :: history r)
            (episodesOfSeason (parseInt digits) episodes)) = true →
       message <$> logs (app r') =
         logDeletionSuccessSonarr
           (length (episodesOfSeason (parseInt digits) episodes))
           (SeriesName item) (Name item)
         :: (message <$> logs (app r))
       ∧ successCount r' = S (successCount r))
    ∧ (forallb is_ok
         (episodeAnswers svc
            (CallGetSonarrEpisodes (sonarr_id sonarrSerie) :: history r)
            (episodesOfSeason (parseInt digits) episodes)) = false →
       message <$> logs (app r') =
         (logDeletionFailedSonarrMulti (SeriesName item) (Name item)
          :: rev (episodeFailures item
                    (episodeAnswers svc
                       (CallGetSonarrEpisodes (sonarr_id sonarrSerie) :: history r)
                       (episodesOfSeason (parseInt digits) episodes)))
          ++ (message <$> logs (app r)))%list
       ∧ successCount r' = successCount r)
    ∧ outcomeOf (logDeletionSuccessSonarr
                   (length (episodesOfSeason (parseInt digits) episodes))
                   (SeriesName item) (Name item)) = Some Succeeded
    ∧ outcomeOf (logDeletionFailedSonarrMulti (SeriesName item) (Name item))
      = Some PartiallyFailed.
Proof.
  intros Hsome. rewrite processItem_season.
  destruct (Nat.eqb_spec (length (episodesOfSeason (parseInt digits) episodes)) 0)
    as [Hz|_].
  { apply length_zero_iff_nil in Hz. contradiction. }
  rewrite bind_run.
  destruct (deleteEpisodes_spec svc item
              (episodesOfSeason (parseInt digits) episodes) true
              (record_call (CallGetSonarrEpisodes (sonarr_id sonarrSerie)) r))
    as (r1 & Hrun & Hh & Hl & Hc).
  rewrite Hrun. cbn [andb history record_call app successCount] in *.
  destruct (forallb is_ok _) eqn:Hall.
  - rewrite bind_run, addLog_log. eexists. split; [reflexivity|].
    cbn [history app logs successCount fmap list_fmap message].
    rewrite (episodeFailures_nil _ _ Hall) in Hl. cbn [rev app] in Hl.
    repeat split; try done; rewrite ?Hl, ?Hc; done.
  - rewrite addLog_log. eexists. split; [reflexivity|].
    cbn [history app logs successCount fmap list_fmap message].
    repeat split; try done; rewrite ?Hl, ?Hc; done.
Qed.

End SeasonItem.

(* ===================================================================== *)
(** ** Deleting a movie *)
(* ===================================================================== *)

(** Nothing is strictly equal to [NaN]. *)
Lemma strict_eq_num_NaN (v : jsval) : strict_eq_num v None = false.
Proof. destruct v; reflexivity. Qed.

Lemma find_NaN (movies : list RadarrMovie) :
  List.find (λ m, strict_eq_num (tmdbId m) None) movies = None.
Proof.
  induction movies as [|m rest IH]; [reflexivity|].
  cbn [List.find]. rewrite strict_eq_num_NaN. exact IH.
Qed.

Section MovieItem.

Variable svc : Services.
Variable cfg : JccSettings.
Variable movies : list RadarrMovie.
Variable series : list SonarrSeries.
Variable providers : gmap string (option string).
Variable item : JellyfinItem.
Variable tmdb : string.
Variable r : Run.

(** The item is a Movie with an external identifier and the movie manager
    is configured. *)
Hypothesis Hkind : Type_ item = "Movie".
Hypothesis Hconfigured : configured (radarr cfg) = true.
Hypothesis Htmdb : truthy_str (ProviderIds item ≫= Tmdb) = Some tmdb.

Lemma processItem_movie :
  processItem svc cfg movies series providers item r =
  match List.find (λ m, strict_eq_num (tmdbId m) (parseInt tmdb)) movies with
  | Some radarrMovie =>
      (await (CallDeleteRadarrMovie (radarr_id radarrMovie))
         (λ h, deleteRadarrMovie svc h (radarr_id radarrMovie)) ;;
       addLog svc (logDeletionSuccessRadarr (Name item)) ;;
       setSuccessCount S) r
  | None => addLog svc (logDeletionInfoRadarr (Name item)) r
  end.
Proof.
  unfold processItem. rewrite Hkind. cbn [String.eqb Ascii.eqb Bool.eqb].
  rewrite Hconfigured. cbn [negb]. rewrite Htmdb.
  destruct (List.find _ movies); reflexivity.
Qed.

(** A matched movie whose deletion succeeds: one call, one line, one more
    success. *)
Lemma movie_deleted (radarrMovie : RadarrMovie) :
  List.find (λ m, strict_eq_num (tmdbId m) (parseInt tmdb)) movies
  = Some radarrMovie →
  deleteRadarrMovie svc (history r) (radarr_id radarrMovie) = Ok tt →
  ∃ r',
    processItem svc cfg movies series providers item r = (r', Ok tt)
    ∧ history r' = CallDeleteRadarrMovie (radarr_id radarrMovie) :: history r
    ∧ logs (app r') =
        {| stamp := clock svc (reads r);
           message := logDeletionSuccessRadarr (Name item) |} :: logs (app r)
    ∧ successCount r' = S (successCount r).
Proof.
  intros Hfind Hdel. rewrite processItem_movie, Hfind.
  rewrite bind_run. unfold await at 1. rewrite Hdel.
  rewrite bind_run, addLog_log. eexists. split; [reflexivity|]. done.
Qed.

(** A matched movie whose deletion is rejected: the error leaves the loop
    body; nothing is logged for the item there. *)
Lemma movie_delete_throws (radarrMovie : RadarrMovie) (e : string) :
  List.find (λ m, strict_eq_num (tmdbId m) (parseInt tmdb)) movies
  = Some radarrMovie →
  deleteRadarrMovie svc (history r) (radarr_id radarrMovie) = Throw e →
  processItem svc cfg movies series providers item r =
  (record_call (CallDeleteRadarrMovie (radarr_id radarrMovie)) r, Throw e).
Proof.
  intros Hfind Hdel. rewrite processItem_movie, Hfind.
  rewrite bind_run. unfold await at 1. rewrite Hdel. reflexivity.
Qed.

(** An external identifier that [parseInt] cannot read matches no record,
    whatever the records are. *)
Lemma movie_unparsable_id :
  parseInt tmdb = None →
  processItem svc cfg movies series providers item r =
  addLog svc (logDeletionInfoRadarr (Name item)) r.
Proof.
  intros Hnan. rewrite processItem_movie, Hnan, find_NaN. reflexivity.
Qed.

(** No record carries the parsed identifier: an informative line, no call. *)
Lemma movie_not_matched :
  List.find (λ m, strict_eq_num (tmdbId m) (parseInt tmdb)) movies = None →
  processItem svc cfg movies series providers item r =
  addLog svc (logDeletionInfoRadarr (Name item)) r.
Proof. intros Hfind. rewrite processItem_movie, Hfind. reflexivity. Qed.

End MovieItem.

(** An error that leaves the body of the loop ends the loop: the items
    after it are not processed. *)
Lemma for_of_throw {A} (body : A → M unit) (x : A) (rest : list A)
    (r r' : Run) (e : string) :
  body x r = (r', Throw e) → for_of body (x :: rest) r = (r', Throw e).
Proof.
  intros Hx. change (for_of body (x :: rest)) with (body x ;; for_of body rest).
  rewrite bind_run, Hx. reflexivity.
Qed.

(** C4 (as the code has it): under policy {movie: 7, season: 28} a Movie
    created 10 days ago whose external identifier is the numeral ["1"] is
    eligible; [parseInt] reads the number 1, which equals the external
    identifier of the record ["r1"]; the record is deleted with exactly one
    call and the item ends Succeeded. *)
Theorem scenario_movie_numeral_id (svc : Services) (cfg : JccSettings)
    (series : list SonarrSeries) (providers : gmap string (option string))
    (t : Z) (r : Run) :
  configured (radarr cfg) = true →
  deleteRadarrMovie svc (history r) (JStr "r1") = Ok tt →
  isDeletable [] (movieRetentionDays Scenario.ctx)
    (tvSeasonRetentionDays Scenario.ctx) t (Scenario.movie "A" "1" t 10) = true
  ∧ List.find (λ m, strict_eq_num (tmdbId m) (parseInt "1"))
      [Scenario.record (JNum 1)] = Some (Scenario.record (JNum 1))
  ∧ ∃ r',
      processItem svc cfg [Scenario.record (JNum 1)] series providers
        (Scenario.movie "A" "1" t 10) r = (r', Ok tt)
      ∧ history r' = CallDeleteRadarrMovie (JStr "r1") :: history r
      ∧ logs (app r') =
          {| stamp := clock svc (reads r);
             message := logDeletionSuccessRadarr "A" |} :: logs (app r)
      ∧ outcomeOf (logDeletionSuccessRadarr "A") = Some Succeeded
      ∧ successCount r' = S (successCount r).
Proof.
  intros Hconf Hdel. split; [|split; [reflexivity|]].
  - rewrite isDeletable_not_excluded by apply not_elem_of_nil.
    cbn [Scenario.movie Type_ DateCreated String.eqb Ascii.eqb Bool.eqb andb].
    apply orb_true_iff. left. apply num_gt_millis.
    change (movieRetentionDays Scenario.ctx) with 7.
    change msPerDay with 86400000. lia.
  - destruct (movie_deleted svc cfg [Scenario.record (JNum 1)] series providers
                (Scenario.movie "A" "1" t 10) "1" r eq_refl Hconf eq_refl
                (Scenario.record (JNum 1)) eq_refl Hdel)
      as (r' & Hrun & Hh & Hl & Hc).
    exists r'. done.
Qed.

(* ===================================================================== *)
(** ** Exclusion management *)
(* ===================================================================== *)

Lemma elem_of_set_spread (l : list string) (x : string) :
  x ∈ set_spread l ↔ x ∈ l.
Proof.
  induction l as [|a l IH]; [done|].
  cbn [set_spread]. rewrite !elem_of_cons, list_elem_of_filter, IH.
  destruct (decide (x = a)); intuition congruence.
Qed.

Lemma NoDup_set_spread (l : list string) : NoDup (set_spread l).
Proof.
  induction l as [|a l IH]; cbn [set_spread]; [constructor|].
  constructor; [|by apply NoDup_filter].
  rewrite list_elem_of_filter. intros [Hne _]. by apply Hne.
Qed.

Lemma filter_other_id (a : string) (l : list string) :
  a ∉ l → filter (λ y, y ≠ a) l = l.
Proof.
  induction l as [|b l IH]; [done|].
  rewrite not_elem_of_cons. intros [Hab Hl].
  rewrite filter_cons_True by done. by rewrite IH.
Qed.

Lemma set_spread_NoDup (l : list string) : NoDup l → set_spread l = l.
Proof.
  induction 1 as [|a l Ha _ IH]; [done|].
  cbn [set_spread]. rewrite IH. by rewrite filter_other_id.
Qed.

(** Adding a value that is already there changes nothing. *)
Lemma set_spread_again (l : list string) (x : string) :
  NoDup l → x ∈ l → set_spread (l ++ [x]) = l.
Proof.
  induction 1 as [|a l Ha Hl IH]; [by intros ?%elem_of_nil|].
  intros Hx. rewrite <- app_comm_cons. cbn [set_spread]. f_equal.
  destruct (decide (x = a)) as [->|Hne].
  - rewrite set_spread_NoDup.
    + rewrite filter_app, filter_other_id by done.
      rewrite filter_cons_False by naive_solver. apply app_nil_r.
    + apply NoDup_app. split; [done|]. split; [|apply NoDup_singleton].
      intros y Hy ->%list_elem_of_singleton. done.
  - apply elem_of_cons in Hx as [?|Hx]; [done|].
    rewrite IH by done. by apply filter_other_id.
Qed.

Lemma handleExcludeItem_exclusions (svc : Services) (item : JellyfinItem)
    (r : Run) :
  exclusions (app (fst (handleExcludeItem svc item r))) =
  set_spread (exclusions (app r) ++ [Id item]).
Proof. reflexivity. Qed.

Lemma handleExcludeAll_run (svc : Services) (r : Run) :
  deletableItems (app r) ≠ [] →
  exclusions (app (fst (handleExcludeAll svc r))) =
    set_spread (exclusions (app r) ++ (Id <$> deletableItems (app r)))
  ∧ deletableItems (app (fst (handleExcludeAll svc r))) = []
  ∧ selectedItems (app (fst (handleExcludeAll svc r))) = ∅.
Proof.
  intros Hne. unfold handleExcludeAll. rewrite bind_run. cbn [get_app].
  destruct (deletableItems (app r)) as [|x l] eqn:E; [done|].
  cbn [length Nat.eqb]. done.
Qed.

(** C8: excluding an identifier that is already in the store leaves the
    set of excluded identifiers as it was (and the stored list itself, when
    it has no duplicate); the stored list never gets a duplicate, and
    excluding twice is excluding once.  Excluding all puts the identifier
    of every eligible item in the store, keeps what was there, and empties
    the pool; with an empty pool it changes nothing at all. *)
Theorem exclusion_operations (svc : Services) (r : Run) :
  (∀ item,
     Id item ∈ exclusions (app r) →
     (∀ x, x ∈ exclusions (app (fst (handleExcludeItem svc item r)))
           ↔ x ∈ exclusions (app r))
     ∧ (NoDup (exclusions (app r)) →
        exclusions (app (fst (handleExcludeItem svc item r)))
        = exclusions (app r)))
  ∧ (∀ item,
       NoDup (exclusions (app (fst (handleExcludeItem svc item r))))
       ∧ Id item ∈ exclusions (app (fst (handleExcludeItem svc item r)))
       ∧ exclusions (app (fst (handleExcludeItem svc item
                                 (fst (handleExcludeItem svc item r)))))
         = exclusions (app (fst (handleExcludeItem svc item r))))
  ∧ ((∀ item, item ∈ deletableItems (app r) →
        Id item ∈ exclusions (app (fst (handleExcludeAll svc r))))
     ∧ (∀ x, x ∈ exclusions (app r) →
          x ∈ exclusions (app (fst (handleExcludeAll svc r))))
     ∧ deletableItems (app (fst (handleExcludeAll svc r))) = [])
  ∧ (deletableItems (app r) = [] → handleExcludeAll svc r = (r, Ok tt)).
Proof.
  split; [|split; [|split]].
  - intros item Hin. rewrite handleExcludeItem_exclusions. split.
    + intros x. rewrite elem_of_set_spread, elem_of_app, list_elem_of_singleton.
      intuition (subst; auto).
    + intros Hnd. by apply set_spread_again.
  - intros item. rewrite !handleExcludeItem_exclusions.
    assert (Hin : Id item ∈ set_spread (exclusions (app r) ++ [Id item])).
    { rewrite elem_of_set_spread, elem_of_app, list_elem_of_singleton. auto. }
    split; [apply NoDup_set_spread|]. split; [exact Hin|].
    apply set_spread_again; [apply NoDup_set_spread|exact Hin].
  - destruct (decide (deletableItems (app r) = [])) as [Hnil|Hne].
    + unfold handleExcludeAll. rewrite bind_run. cbn [get_app].
      rewrite Hnil. cbn. rewrite Hnil.
      split; [by intros item ?%elem_of_nil|]. done.
    + destruct (handleExcludeAll_run svc r Hne) as (He & Hd & _).
      rewrite He, Hd. split; [|split; [|done]].
      * intros item Hitem. rewrite elem_of_set_spread, elem_of_app.
        right. by apply list_elem_of_fmap_2.
      * intros x Hx. rewrite elem_of_set_spread, elem_of_app. by left.
  - intros Hnil. unfold handleExcludeAll. rewrite bind_run. cbn [get_app].
    rewrite Hnil. reflexivity.
Qed.

(* ===================================================================== *)
(** ** The scan *)
(* ===================================================================== *)

(** A scan whose catalog query succeeds leaves in [deletableItems] what the
    evaluator keeps of the catalog, at the time read after the query. *)
Lemma handleScan_evaluates (svc : Services) (ctx : option SettingsContextType)
    (jf : ServiceSettings) (allItems : list JellyfinItem) (r : Run) :
  (ctx ≫= settings) ≫= jellyfin = Some jf →
  getItems svc (history r) ["Movie"; "Season"] = Ok allItems →
  deletableItems (app (fst (handleScan svc ctx r))) =
  evaluate (exclusions (app r)) (movieRetentionDays ctx)
    (tvSeasonRetentionDays ctx) (clock svc (S (S (reads r)))) allItems.
Proof.
  intros Hjf Hitems. unfold handleScan. rewrite Hjf.
  repeat (rewrite bind_run; cbn [setIsLoading setError setDeletableItems
                                 setSelectedItems modify_app]).
  rewrite addLog_log, bind_run. unfold try_catch at 1.
  rewrite bind_run. unfold await at 1.
  cbn [history record_call app]. rewrite Hitems.
  reflexivity.
Qed.

(* ===================================================================== *)
(** ** The scenarios, evaluated *)
(* ===================================================================== *)

(** C1 (what the code does): in a batch of three movies where the deletion
    of the second record is rejected, the first movie is deleted and
    reported as a success, the rejection is reported once as a run-level
    error, and the third movie is never processed: the run leaves two
    outcomes, not three, and issues no deletion for the third record. *)
Theorem movie_error_aborts_batch :
  outcomes (logs (app Scenario.abortedRun)) = [Succeeded; Failed]
  ∧ message <$> logs (app Scenario.abortedRun) =
      [ logScanComplete 3; logScanFoundItems 3; logScanStarted;
        logDeletionComplete 1 3; logError "HTTP 500";
        logDeletionSuccessRadarr "A"; logDeletionStarted 3 ]
  ∧ rev (List.filter isDeleteCall (history Scenario.abortedRun)) =
      [ CallDeleteRadarrMovie (JNum 11); CallDeleteRadarrMovie (JNum 12) ].
Proof. vm_compute. done. Qed.

Lemma evaluate_strictly_older_witness :
  ageInDays Scenario.now (DateCreated Scenario.movieA)
  = Some (inject_Z (Scenario.now - (Scenario.now - 10 * 86400000))
          / inject_Z 86400000)%Q
  ∧ Scenario.movieA ∈ evaluate [] 7 28 Scenario.now Scenario.threeMovies
  ∧ (Scenario.movieA ∉ evaluate [] 10 28 Scenario.now Scenario.threeMovies).
Proof.
  destruct (evaluate_strictly_older [] 7 28 Scenario.now Scenario.threeMovies
              Scenario.movieA (list_elem_of_here _ _) (not_elem_of_nil _))
    as (Hold & _).
  destruct (Hold (Scenario.now - 10 * 86400000) eq_refl)
    as (Hage & _ & Hms & _).
  destruct (evaluate_strictly_older [] 10 28 Scenario.now Scenario.threeMovies
              Scenario.movieA (list_elem_of_here _ _) (not_elem_of_nil _))
    as (Hexact & _).
  destruct (Hexact (Scenario.now - 10 * 86400000) eq_refl)
    as (_ & _ & _ & Hequal & _).
  split; [exact Hage|]. split.
  - apply Hms. left. split; reflexivity.
  - apply Hequal; reflexivity.
Defined.

Lemma excluded_never_eligible_witness :
  isDeletable ["A"] 7 28 Scenario.now Scenario.movieA = false
  ∧ ∀ allItems, Scenario.movieA ∉ evaluate ["A"] 7 28 Scenario.now allItems.
Proof.
  apply (excluded_never_eligible ["A"] 7 28 Scenario.now Scenario.movieA).
  apply list_elem_of_singleton. reflexivity.
Defined.

Lemma retention_defaults_witness :
  movieRetentionDays Scenario.ctxZero = 7
  ∧ tvSeasonRetentionDays Scenario.ctxZero = 28
  ∧ movieRetentionDays Scenario.ctx = 7
  ∧ tvSeasonRetentionDays Scenario.ctx = 28.
Proof.
  destruct (retention_defaults Scenario.ctxZero) as (Hm & Hs & _).
  destruct (retention_defaults Scenario.ctx) as (_ & _ & Hd & _).
  split; [apply Hm; right; reflexivity|].
  split; [apply Hs; left; reflexivity|].
  split.
  - apply (Hd 7); [discriminate|reflexivity].
  - apply (Hd 28); [discriminate|reflexivity].
Defined.

(** C4, the scenario as the specification writes it: the external
    identifier ["tt1"] is no numeral, [parseInt] gives [NaN], which equals
    the identifier of no record; the run deletes nothing and the item ends
    SkippedNoMatch. *)
Lemma scenario_tt1_is_not_matched :
  isDeletable [] (movieRetentionDays Scenario.ctx)
    (tvSeasonRetentionDays Scenario.ctx) Scenario.now
    (Scenario.movie "A" "tt1" Scenario.now 10) = true
  ∧ parseInt "tt1" = None
  ∧ List.find (λ m, strict_eq_num (tmdbId m) (parseInt "tt1"))
      [Scenario.record (JStr "tt1")] = None
  ∧ List.filter isDeleteCall (history Scenario.tt1Run) = []
  ∧ outcomes (logs (app Scenario.tt1Run)) = [SkippedNoMatch]
  ∧ successCount Scenario.tt1Run = 0%nat.
Proof. vm_compute. done. Qed.

(** The whole run of the scenario with the numeral identifier: one
    deletion, of the record ["r1"], and one outcome, Succeeded. *)
Example scenario_numeral_run :
  List.filter isDeleteCall
    (history (fst (handleDelete
                     (Scenario.services [] [Scenario.record (JNum 1)] [] [])
                     Scenario.ctx
                     (Scenario.scanned [Scenario.movie "A" "1" Scenario.now 10] []))))
  = [CallDeleteRadarrMovie (JStr "r1")]
  ∧ outcomes
      (logs (app (fst (handleDelete
                         (Scenario.services [] [Scenario.record (JNum 1)] [] [])
                         Scenario.ctx
                         (Scenario.scanned
                            [Scenario.movie "A" "1" Scenario.now 10] [])))))
    = [Succeeded].
Proof. vm_compute. done. Qed.

Lemma scenario_movie_numeral_id_witness :
  isDeletable [] (movieRetentionDays Scenario.ctx)
    (tvSeasonRetentionDays Scenario.ctx) Scenario.now
    (Scenario.movie "A" "1" Scenario.now 10) = true
  ∧ List.find (λ m, strict_eq_num (tmdbId m) (parseInt "1"))
      [Scenario.record (JNum 1)] = Some (Scenario.record (JNum 1))
  ∧ ∃ r',
      processItem (Scenario.services [] [Scenario.record (JNum 1)] [] [])
        Scenario.cfg [Scenario.record (JNum 1)] [] ∅
        (Scenario.movie "A" "1" Scenario.now 10)
        (Scenario.scanned [Scenario.movie "A" "1" Scenario.now 10] [])
      = (r', Ok tt)
      ∧ history r' = [CallDeleteRadarrMovie (JStr "r1")]
      ∧ logs (app r') =
          [{| stamp := Scenario.now; message := logDeletionSuccessRadarr "A" |}]
      ∧ outcomeOf (logDeletionSuccessRadarr "A") = Some Succeeded
      ∧ successCount r' = 1%nat.
Proof.
  apply (scenario_movie_numeral_id
           (Scenario.services [] [Scenario.record (JNum 1)] [] [])
           Scenario.cfg [] ∅ Scenario.now
           (Scenario.scanned [Scenario.movie "A" "1" Scenario.now 10] []));
    reflexivity.
Defined.

(** C5, the count of failures: a run in which one of the two file
    deletions of the season fails and a run in which both fail report the
    item with the same line; the number of failures is in neither. *)
Lemma partial_failure_line_has_no_count :
  outcomeLines (logs (app (Scenario.seasonRun [JNum 101]))) =
    [logDeletionFailedSonarrMulti (Some "Show") "Season 2"]
  ∧ outcomeLines (logs (app (Scenario.seasonRun [JNum 101; JNum 102]))) =
    [logDeletionFailedSonarrMulti (Some "Show") "Season 2"]
  ∧ length (episodeFailures Scenario.season2
              (episodeAnswers
                 (Scenario.services [] [] Scenario.episodesWithFiles [JNum 101])
                 [] (episodesOfSeason (Some 2) Scenario.episodesWithFiles)))
    = 1%nat
  ∧ length (episodeFailures Scenario.season2
              (episodeAnswers
                 (Scenario.services [] [] Scenario.episodesWithFiles
                    [JNum 101; JNum 102])
                 [] (episodesOfSeason (Some 2) Scenario.episodesWithFiles)))
    = 2%nat.
Proof. vm_compute. done. Qed.


Lemma season_files_deleted_independently_witness :
  ∃ r',
    processItem (Scenario.services [] [] Scenario.episodesWithFiles [JNum 101])
      Scenario.cfg [] [Scenario.seriesRecord]
      (seriesIdToProviderIdMap [Scenario.parentSeries]) Scenario.season2
      (Scenario.scanned [Scenario.season2] []) = (r', Ok tt)
    ∧ history r' =
        [ CallDeleteSonarrEpisodeFile (JNum 102);
          CallDeleteSonarrEpisodeFile (JNum 101);
          CallGetSonarrEpisodes (JNum 5) ]
    ∧ message <$> logs (app r') =
        [ logDeletionFailedSonarrMulti (Some "Show") "Season 2";
          logDeletionFailedEpisode (Some "Show") "Season 2" "HTTP 500" ]
    ∧ successCount r' = 0%nat.
Proof.
  destruct (season_files_deleted_independently
              (Scenario.services [] [] Scenario.episodesWithFiles [JNum 101])
              Scenario.cfg [] [Scenario.seriesRecord]
              (seriesIdToProviderIdMap [Scenario.parentSeries]) Scenario.season2
              "77" Scenario.seriesRecord Scenario.episodesWithFiles "2"
              (Scenario.scanned [Scenario.season2] [])
              eq_refl eq_refl eq_refl eq_refl eq_refl eq_refl)
    as (r' & Hrun & Hhist & _ & Hfail & _).
  { vm_compute. discriminate. }
  destruct (Hfail eq_refl) as [Hlog Hcount].
  exists r'. split; [exact Hrun|].
  split; [exact Hhist|]. split; [exact Hlog|exact Hcount].
Defined.

(** C7, the order of the log: in a run over the movies A and B, A is
    deleted first and B second, and the line of B stands before the line
    of A. *)
Lemma later_item_is_logged_first :
  rev (List.filter isDeleteCall (history Scenario.twoMoviesRun)) =
    [ CallDeleteRadarrMovie (JNum 11); CallDeleteRadarrMovie (JNum 12) ]
  ∧ logs (app Scenario.twoMoviesRun) !! 4%nat =
      Some {| stamp := Scenario.now + 2;
              message := logDeletionSuccessRadarr "B" |}
  ∧ logs (app Scenario.twoMoviesRun) !! 5%nat =
      Some {| stamp := Scenario.now + 1;
              message := logDeletionSuccessRadarr "A" |}.
Proof. vm_compute. done. Qed.

Lemma log_is_newest_first_witness :
  ∃ earlier later,
    logs (app Scenario.afterMovieA) = (earlier ++ [])%list
    ∧ for_of Scenario.twoMoviesBody ([Scenario.movieA] ++ [Scenario.movieB])%list
        (Scenario.scanned [Scenario.movieA; Scenario.movieB] [])
      = for_of Scenario.twoMoviesBody [Scenario.movieB] Scenario.afterMovieA
    ∧ logs (app (fst (for_of Scenario.twoMoviesBody [Scenario.movieB]
                        Scenario.afterMovieA)))
      = (later ++ earlier ++ [])%list.
Proof.
  destruct (log_is_newest_first
              (Scenario.services [] Scenario.movieRecords [] []) Scenario.ctx)
    as (_ & _ & Horder).
  exact (Horder Scenario.cfg Scenario.movieRecords [] ∅
           [Scenario.movieA] [Scenario.movieB]
           (Scenario.scanned [Scenario.movieA; Scenario.movieB] [])
           Scenario.afterMovieA eq_refl).
Defined.

Lemma exclusion_operations_witness :
  exclusions (app (fst (handleExcludeItem (Scenario.services [] [] [] [])
                          Scenario.movieA
                          (Scenario.scanned [Scenario.movieA; Scenario.movieB]
                             ["A"]))))
  = ["A"]
  ∧ Id Scenario.movieB
    ∈ exclusions (app (fst (handleExcludeAll (Scenario.services [] [] [] [])
                              (Scenario.scanned
                                 [Scenario.movieA; Scenario.movieB] ["A"]))))
  ∧ handleExcludeAll (Scenario.services [] [] [] []) (Scenario.scanned [] ["A"])
    = (Scenario.scanned [] ["A"], Ok tt).
Proof.
  destruct (exclusion_operations (Scenario.services [] [] [] [])
              (Scenario.scanned [Scenario.movieA; Scenario.movieB] ["A"]))
    as (Hitem & _ & (Hall & _) & _).
  destruct (exclusion_operations (Scenario.services [] [] [] [])
              (Scenario.scanned [] ["A"]))
    as (_ & _ & _ & Hnoop).
  split.
  - apply (Hitem Scenario.movieA).
    + apply list_elem_of_singleton. reflexivity.
    + apply NoDup_singleton.
  - split.
    + apply (Hall Scenario.movieB). apply elem_of_cons. right.
      apply list_elem_of_singleton. reflexivity.
    + apply Hnoop. reflexivity.
Defined.

(* ===================================================================== *)
(** * Further properties of the component *)
(* ===================================================================== *)

(* ===================================================================== *)
(** ** No handler rejects *)
(* ===================================================================== *)

(** A computation resolves when no run of it ends in a thrown error. *)
Definition resolves {A} (m : M A) : Prop :=
  ∀ r, ∃ r' a, m r = (r', Ok a).

Lemma resolves_ret {A} (a : A) : resolves (mret a : M A).
Proof. intros r. by exists r, a. Qed.

Lemma resolves_bind {A B} (m : M A) (f : A → M B) :
  resolves m → (∀ a, resolves (f a)) → resolves (m ≫= f).
Proof.
  intros Hm Hf r. rewrite bind_run.
  destruct (Hm r) as (r' & a & ->). apply Hf.
Qed.

(** A handler that resolves makes the whole [try]/[catch] resolve,
    whatever the protected block does. *)
Lemma resolves_try_catch {A} (m : M A) (h : string → M A) :
  (∀ e, resolves (h e)) → resolves (try_catch m h).
Proof.
  intros Hh r. unfold try_catch.
  destruct (m r) as [r' [a|e]]; [by exists r', a|apply Hh].
Qed.

Lemma resolves_modify_app (f : AppState → AppState) : resolves (modify_app f).
Proof. intros r. by eexists _, tt. Qed.

Lemma resolves_addLog (svc : Services) (msg : LogMsg) : resolves (addLog svc msg).
Proof. intros r. rewrite addLog_log. by eexists _, tt. Qed.

Ltac resolves_step :=
  lazymatch goal with
  | |- resolves (mret _) => apply resolves_ret
  | |- resolves (addLog _ _) => apply resolves_addLog
  | |- resolves (mbind _ _) => apply resolves_bind; [|intros ?]
  | |- resolves (try_catch _ _) => apply resolves_try_catch; intros ?
  | |- resolves (match ?x with _ => _ end) => destruct x
  | |- resolves _ => by (intros ?; eexists _, _; reflexivity)
  end.

Lemma handleScan_resolves (svc : Services) (ctx : option SettingsContextType) :
  resolves (handleScan svc ctx).
Proof. unfold handleScan. repeat resolves_step. Qed.

Lemma handleDelete_resolves (svc : Services) (ctx : option SettingsContextType) :
  resolves (handleDelete svc ctx).
Proof.
  unfold handleDelete.
  repeat first [apply handleScan_resolves | resolves_step | cbv zeta].
Qed.

(** No handler of the component ends in an unhandled rejection: whatever
    the catalog and the acquisition managers answer, a scan, a deletion
    run and both exclusion operations resolve. *)
Theorem handlers_never_reject (svc : Services)
    (ctx : option SettingsContextType) (r : Run) :
  (∃ r', handleScan svc ctx r = (r', Ok tt))
  ∧ (∃ r', handleDelete svc ctx r = (r', Ok tt))
  ∧ (∀ item, ∃ r', handleExcludeItem svc item r = (r', Ok tt))
  ∧ (∃ r', handleExcludeAll svc r = (r', Ok tt)).
Proof.
  split; [|split; [|split]].
  - destruct (handleScan_resolves svc ctx r) as (r' & [] & H). by exists r'.
  - destruct (handleDelete_resolves svc ctx r) as (r' & [] & H). by exists r'.
  - intros item. by eexists.
  - unfold handleExcludeAll. rewrite bind_run. cbn [get_app].
    destruct (length (deletableItems (app r)) =? 0)%nat; by eexists.
Qed.

(* ===================================================================== *)
(** ** One outcome per item, and the count of successes *)
(* ===================================================================== *)

Definition isOutcome (m : LogMsg) : bool :=
  match outcomeOf m with Some _ => true | None => false end.

Definition isSucceeded (m : LogMsg) : bool :=
  match outcomeOf m with Some Succeeded => true | _ => false end.

(** The number of item outcomes, and of Succeeded outcomes, among messages. *)
Definition outcomeCount (msgs : list LogMsg) : nat :=
  length (List.filter isOutcome msgs).

Definition succeededCount (msgs : list LogMsg) : nat :=
  length (List.filter isSucceeded msgs).

(** The messages of the log of a state, newest first. *)
Definition messages (r : Run) : list LogMsg := message <$> logs (app r).

Lemma succeededCount_le_outcomeCount (msgs : list LogMsg) :
  (succeededCount msgs <= outcomeCount msgs)%nat.
Proof.
  unfold succeededCount, outcomeCount, isSucceeded, isOutcome.
  induction msgs as [|m l IH]; [done|].
  cbn [List.filter]. destruct (outcomeOf m) as [[]|]; cbn; lia.
Qed.

Lemma succeededCount_app (a b : list LogMsg) :
  succeededCount (a ++ b) = (succeededCount a + succeededCount b)%nat.
Proof. unfold succeededCount. by rewrite List.filter_app, length_app. Qed.

Lemma outcomeCount_app (a b : list LogMsg) :
  outcomeCount (a ++ b) = (outcomeCount a + outcomeCount b)%nat.
Proof. unfold outcomeCount. by rewrite List.filter_app, length_app. Qed.

Lemma no_outcome_counts (msgs : list LogMsg) :
  Forall (λ m, outcomeOf m = None) msgs →
  outcomeCount msgs = 0%nat ∧ succeededCount msgs = 0%nat.
Proof.
  unfold outcomeCount, succeededCount.
  intros H. induction H as [|m l Hm Hl IH]; [done|].
  cbn [List.filter]. unfold isOutcome, isSucceeded. rewrite Hm. exact IH.
Qed.

Lemma episodeFailures_no_outcome (item : JellyfinItem)
    (answers : list (result unit)) :
  outcomeCount (rev (episodeFailures item answers)) = 0%nat
  ∧ succeededCount (rev (episodeFailures item answers)) = 0%nat.
Proof.
  apply no_outcome_counts, Forall_rev.
  induction answers as [|[[]|e] rest IH]; cbn; [constructor|exact IH|].
  constructor; [reflexivity|exact IH].
Qed.

(** What the run [out] of one item, started in [r], did to the log and to
    the counter, given the messages it added. *)
Definition item_report (item : JellyfinItem) (r : Run)
    (out : Run * result unit) (added : list LogMsg) : Prop :=
  messages (fst out) = (added ++ messages r)%list
  ∧ successCount (fst out) = (successCount r + succeededCount added)%nat
  ∧ (outcomeCount added <= 1)%nat
  ∧ (snd out = Ok tt → Type_ item = "Movie" ∨ Type_ item = "Season" →
     outcomeCount added = 1%nat)
  ∧ (∀ e, snd out = Throw e → added = []).

(** Closes the five parts of an item report once the run is evaluated. *)
Ltac report_done :=
  unfold item_report;
  split; [unfold messages; cbn; reflexivity|];
  split; [|split; [|split]];
  unfold succeededCount, outcomeCount, isSucceeded, isOutcome; cbn;
  first [done | lia | idtac].

Lemma processItem_report (svc : Services) (cfg : JccSettings)
    (movies : list RadarrMovie) (series : list SonarrSeries)
    (providers : gmap string (option string)) (item : JellyfinItem) (r : Run) :
  ∃ added,
    item_report item r (processItem svc cfg movies series providers item r)
      added.
Proof.
  unfold processItem.
  destruct (String.eqb (Type_ item) "Movie") eqn:Em.
  - destruct (negb (configured (radarr cfg))).
    { eexists [_]. rewrite addLog_log. report_done. }
    destruct (truthy_str _).
    2:{ eexists [_]. rewrite addLog_log. report_done. }
    destruct (List.find _ movies).
    2:{ eexists [_]. rewrite addLog_log. report_done. }
    rewrite bind_run. unfold await at 1.
    destruct (deleteRadarrMovie _ _ _) as [[]|e].
    + eexists [_]. rewrite bind_run, addLog_log. report_done.
    + exists []. report_done.
  - destruct (String.eqb (Type_ item) "Season") eqn:Es.
    2:{ exists []. report_done.
        apply String.eqb_neq in Em, Es. intros _ [?|?]; done. }
    destruct (negb (configured (sonarr cfg))).
    { eexists [_]. rewrite addLog_log. report_done. }
    destruct (truthy_str _).
    2:{ eexists [_]. rewrite addLog_log. report_done. }
    destruct (List.find _ series).
    2:{ eexists [_]. rewrite addLog_log. report_done. }
    rewrite bind_run. unfold await at 1.
    destruct (getSonarrEpisodes _ _ _) as [episodes|e].
    2:{ exists []. report_done. }
    destruct (match_digits (Name item)).
    2:{ eexists [_]. rewrite addLog_log. report_done. }
    cbv zeta.
    destruct (length _ =? 0)%nat.
    { eexists [_]. rewrite bind_run, addLog_log. report_done. }
    rewrite bind_run.
    match goal with |- context [deleteEpisodes svc item ?eps true ?r0] =>
      destruct (deleteEpisodes_spec svc item eps true r0)
        as (r1 & Hrun & Hh & Hl & Hc) end.
    rewrite Hrun. cbn [andb].
    match type of Hl with context [episodeFailures item ?a] =>
      destruct (episodeFailures_no_outcome item a) as [Ho Hs] end.
    cbn [history record_call app successCount logs] in Hh, Hl, Hc, Ho, Hs.
    unfold succeededCount, outcomeCount in Ho, Hs.
    destruct (forallb is_ok _).
    + eexists (_ :: _). rewrite bind_run, addLog_log. unfold item_report.
      split; [unfold messages; cbn; rewrite Hl; reflexivity|].
      split; [|split; [|split]];
        unfold succeededCount, outcomeCount; cbn; rewrite ?Hc, ?Ho, ?Hs;
        first [done | lia].
    + eexists (_ :: _). rewrite addLog_log. unfold item_report.
      split; [unfold messages; cbn; rewrite Hl; reflexivity|].
      split; [|split; [|split]];
        unfold succeededCount, outcomeCount; cbn; rewrite ?Hc, ?Ho, ?Hs;
        first [done | lia].
Qed.


Lemma for_of_cons {A} (body : A → M unit) (x : A) (l : list A) (r : Run) :
  for_of body (x :: l) r =
  match body x r with
  | (r', Ok _) => for_of body l r'
  | (r', Throw e) => (r', Throw e)
  end.
Proof.
  change (for_of body (x :: l)) with (body x ;; for_of body l).
  apply bind_run.
Qed.

(** A computation over at most [n] items reports them: what it adds to the
    log holds at most [n] outcomes, and the counter grows by the number of
    Succeeded ones. *)
Definition reports (n : nat) (m : M unit) : Prop :=
  ∀ r, ∃ added,
    messages (fst (m r)) = (added ++ messages r)%list
    ∧ successCount (fst (m r)) = (successCount r + succeededCount added)%nat
    ∧ (outcomeCount added <= n)%nat.

(** A step that touches neither the log nor the counter. *)
Definition quiet {A} (m : M A) : Prop :=
  ∀ r, messages (fst (m r)) = messages r
       ∧ successCount (fst (m r)) = successCount r.

Lemma quiet_await {A} (c : Call) (answer : list Call → result A) :
  quiet (await c answer).
Proof. by intros r. Qed.

Lemma quiet_ret {A} (a : A) : quiet (mret a : M A).
Proof. by intros r. Qed.

Lemma reports_after_quiet {A} (n : nat) (m : M A) (k : A → M unit) :
  quiet m → (∀ a, reports n (k a)) → reports n (m ≫= k).
Proof.
  intros Hm Hk r. rewrite bind_run. destruct (Hm r) as [Hlog Hcount].
  destruct (m r) as [r' [a|e]]; cbn [fst] in *.
  - destruct (Hk a r') as (added & H1 & H2 & H3).
    exists added. by rewrite H1, H2, Hlog, Hcount.
  - exists []. rewrite Hlog, Hcount. cbn. split; [done|]. split; lia.
Qed.

Lemma for_of_reports (svc : Services) (cfg : JccSettings)
    (movies : list RadarrMovie) (series : list SonarrSeries)
    (providers : gmap string (option string)) (items : list JellyfinItem) :
  reports (length items)
    (for_of (processItem svc cfg movies series providers) items).
Proof.
  induction items as [|item items IH]; intros r.
  - exists []. cbn. split; [done|]. split; lia.
  - rewrite for_of_cons.
    destruct (processItem_report svc cfg movies series providers item r)
      as (first & H1 & H2 & H3 & _).
    destruct (processItem svc cfg movies series providers item r)
      as [r' [[]|e]]; cbn [fst] in *.
    + destruct (IH r') as (rest & R1 & R2 & R3).
      exists (rest ++ first)%list.
      rewrite R1, R2, H1, H2, succeededCount_app, outcomeCount_app.
      rewrite <- app_assoc. cbn [length]. split; [done|]. split; lia.
    + exists first. cbn [length]. split; [done|]. split; [done|lia].
Qed.

Lemma deleteBatch_reports (svc : Services) (cfg : JccSettings)
    (items : list JellyfinItem) :
  reports (length items) (deleteBatch svc cfg items).
Proof.
  unfold deleteBatch.
  apply reports_after_quiet;
    [destruct (configured _); [apply quiet_await|apply quiet_ret]|intros movies].
  apply reports_after_quiet;
    [destruct (configured _); [apply quiet_await|apply quiet_ret]|intros series].
  cbv zeta.
  apply reports_after_quiet;
    [destruct (_ <? _)%nat; [apply quiet_await|apply quiet_ret]|intros parents].
  apply for_of_reports.
Qed.

Lemma handleScan_messages (svc : Services) (ctx : option SettingsContextType)
    (r : Run) :
  ∃ scanLines,
    messages (fst (handleScan svc ctx r)) = (scanLines ++ messages r)%list.
Proof.
  destruct (handleScan_stable_log svc ctx r) as [added Hadded].
  exists (message <$> added). unfold messages. by rewrite Hadded, fmap_app.
Qed.


(* ===================================================================== *)
(** ** Which services a run calls *)
(* ===================================================================== *)

Definition isRadarrCall (c : Call) : bool :=
  match c with
  | CallGetRadarrMovies | CallDeleteRadarrMovie _ => true
  | _ => false
  end.

Definition isSonarrCall (c : Call) : bool :=
  match c with
  | CallGetSonarrSeries | CallGetSonarrEpisodes _
  | CallDeleteSonarrEpisodeFile _ => true
  | _ => false
  end.

(** The run only issues calls that pass [allowed]. *)
Definition issues_only (allowed : Call → bool) (r r' : Run) : Prop :=
  ∃ added, history r' = (added ++ history r)%list
           ∧ forallb allowed added = true.

Lemma issues_only_refl (allowed : Call → bool) (r : Run) :
  issues_only allowed r r.
Proof. by exists []. Qed.

Lemma issues_only_trans (allowed : Call → bool) (a b c : Run) :
  issues_only allowed a b → issues_only allowed b c → issues_only allowed a c.
Proof.
  intros (x & Hx & Px) (y & Hy & Py). exists (y ++ x)%list.
  rewrite Hy, Hx, app_assoc, forallb_app, Px, Py. done.
Qed.

#[local] Hint Resolve issues_only_refl issues_only_trans : frame.

(** A step of a handler: a call that passes, or a step that calls nothing. *)
Ltac calls_leaf :=
  first
    [ by (intros ?; exists []; split; reflexivity)
    | by (intros ?; eexists [_]; split; reflexivity) ].

Ltac calls_frame :=
  repeat (first [frame_step | calls_leaf | cbv zeta]); eauto with frame.

Lemma deleteEpisodes_issues_only (allowed : Call → bool) (svc : Services)
    (item : JellyfinItem) (episodes : list SonarrEpisode) (ok : bool) :
  (∀ id, allowed (CallDeleteSonarrEpisodeFile id) = true) →
  stable (issues_only allowed) (deleteEpisodes svc item episodes ok).
Proof.
  intros Hallowed. revert ok.
  induction episodes as [|e rest IH]; intros ok; cbn [deleteEpisodes];
    calls_frame.
  intros r. eexists [_]. split; [reflexivity|]. cbn. by rewrite Hallowed.
Qed.

Lemma handleScan_issues_only (allowed : Call → bool) (svc : Services)
    (ctx : option SettingsContextType) :
  (∀ kinds, allowed (CallGetItems kinds) = true) →
  stable (issues_only allowed) (handleScan svc ctx).
Proof.
  intros Hallowed. unfold handleScan. calls_frame.
  intros r. eexists [_]. split; [reflexivity|]. cbn. by rewrite Hallowed.
Qed.

Lemma processItem_without_radarr (svc : Services) (cfg : JccSettings)
    (movies : list RadarrMovie) (series : list SonarrSeries)
    (providers : gmap string (option string)) (item : JellyfinItem) :
  configured (radarr cfg) = false →
  stable (issues_only (λ c, negb (isRadarrCall c)))
    (processItem svc cfg movies series providers item).
Proof.
  intros Hoff. unfold processItem. rewrite Hoff. cbn [negb].
  pose proof (deleteEpisodes_issues_only (λ c, negb (isRadarrCall c)) svc).
  calls_frame.
Qed.

Lemma processItem_without_sonarr (svc : Services) (cfg : JccSettings)
    (movies : list RadarrMovie) (series : list SonarrSeries)
    (providers : gmap string (option string)) (item : JellyfinItem) :
  configured (sonarr cfg) = false →
  stable (issues_only (λ c, negb (isSonarrCall c)))
    (processItem svc cfg movies series providers item).
Proof.
  intros Hoff. unfold processItem. rewrite Hoff. cbn [negb]. calls_frame.
Qed.

(** A manager that is not configured is never called during a deletion
    run: without a URL and a key for the movie manager the run issues no
    call to it (neither the listing nor a deletion), and likewise for the
    series manager. *)
Theorem unconfigured_manager_is_never_called (svc : Services)
    (ctx : option SettingsContextType) (cfg : JccSettings) (r : Run) :
  ctx ≫= settings = Some cfg →
  (configured (radarr cfg) = false →
   issues_only (λ c, negb (isRadarrCall c)) r (fst (handleDelete svc ctx r)))
  ∧ (configured (sonarr cfg) = false →
     issues_only (λ c, negb (isSonarrCall c)) r (fst (handleDelete svc ctx r))).
Proof.
  intros Hcfg. split; intros Hoff; revert r;
    match goal with |- ∀ r, issues_only ?P r _ =>
      change (stable (issues_only P) (handleDelete svc ctx)) end;
    unfold handleDelete, deleteBatch; rewrite Hcfg, Hoff.
  - pose proof (processItem_without_radarr svc cfg) as Hitem.
    pose proof (handleScan_issues_only (λ c, negb (isRadarrCall c)) svc ctx
                  (λ _, eq_refl)).
    calls_frame.
  - pose proof (processItem_without_sonarr svc cfg) as Hitem.
    pose proof (handleScan_issues_only (λ c, negb (isSonarrCall c)) svc ctx
                  (λ _, eq_refl)).
    calls_frame.
Qed.

(* ===================================================================== *)
(** ** Which movie record is deleted *)
(* ===================================================================== *)

Fixpoint all_chars (p : ascii → bool) (s : string) : bool :=
  match s with
  | String c r => p c && all_chars p r
  | EmptyString => true
  end.

(** The identifiers on which the exact [parseInt] above is the JavaScript
    one: every character is ASCII, so that the white space [parseInt] skips
    is TAB, LF, VT, FF, CR and SPACE only, and the number read lies between
    -2^53 and 2^53, where a double holds every integer exactly. *)
Definition within_safe_integers (n : Z) : bool :=
  (- 2 ^ 53 <=? n) && (n <=? 2 ^ 53).

Definition exactly_parsed (s : string) : bool :=
  all_chars (λ c, code_of c <? 128) s
  && match parseInt s with
     | Some n => within_safe_integers n
     | None => true
     end.

Lemma find_first {A} (f : A → bool) (l : list A) (x : A) :
  List.find f l = Some x →
  ∃ before after,
    l = (before ++ x :: after)%list ∧ f x = true
    ∧ Forall (λ y, f y = false) before.
Proof.
  induction l as [|a l IH]; [discriminate|].
  cbn [List.find]. destruct (f a) eqn:Ea.
  - intros [= <-]. by exists [], l.
  - intros Hfind. destruct (IH Hfind) as (before & after & -> & Hx & Hb).
    exists (a :: before), after. split; [done|]. split; [done|].
    by constructor.
Qed.

Lemma truthy_str_Some (s : option string) (v : string) :
  truthy_str s = Some v → s = Some v ∧ v ≠ "".
Proof.
  destruct s as [w|]; [|discriminate]. cbn.
  destruct (decide (w = "")); [discriminate|]. by intros [= <-].
Qed.

(** X5: for a Movie whose Tmdb identifier, if it has one, is an ASCII
    string that [parseInt] reads as nothing or as an integer between -2^53
    and 2^53, processing issues at most one call.  When it issues one, the
    movie manager is configured, the item has a non-empty Tmdb identifier,
    and the call deletes the first record, in the order of the listing,
    whose [tmdbId] is strictly equal to the parsed identifier.  (Outside
    that range [parseInt] rounds to a double, and the records compared
    equal are then those of the rounded number.) *)
Theorem movie_deletes_first_match (svc : Services) (cfg : JccSettings)
    (movies : list RadarrMovie) (series : list SonarrSeries)
    (providers : gmap string (option string)) (item : JellyfinItem) (r : Run) :
  Type_ item = "Movie" →
  (∀ tmdb, ProviderIds item ≫= Tmdb = Some tmdb → exactly_parsed tmdb = true) →
  history (fst (processItem svc cfg movies series providers item r))
  = history r
  ∨ ∃ tmdb before radarrMovie after,
      configured (radarr cfg) = true
      ∧ ProviderIds item ≫= Tmdb = Some tmdb ∧ tmdb ≠ ""
      ∧ movies = (before ++ radarrMovie :: after)%list
      ∧ strict_eq_num (tmdbId radarrMovie) (parseInt tmdb) = true
      ∧ Forall (λ m, strict_eq_num (tmdbId m) (parseInt tmdb) = false) before
      ∧ history (fst (processItem svc cfg movies series providers item r))
        = CallDeleteRadarrMovie (radarr_id radarrMovie) :: history r.
Proof.
  intros Hkind _.
  destruct (configured (radarr cfg)) eqn:Hconf.
  2:{ left. unfold processItem. rewrite Hkind, Hconf. reflexivity. }
  destruct (truthy_str (ProviderIds item ≫= Tmdb)) as [tmdb|] eqn:Htmdb.
  2:{ left. unfold processItem. rewrite Hkind, Hconf, Htmdb. reflexivity. }
  rewrite (processItem_movie svc cfg movies series providers item tmdb r
             Hkind Hconf Htmdb).
  destruct (List.find _ movies) as [radarrMovie|] eqn:Hfind; [|by left].
  right. apply truthy_str_Some in Htmdb as [Hid Hne].
  destruct (find_first _ _ _ Hfind) as (before & after & Hsplit & Hm & Hb).
  exists tmdb, before, radarrMovie, after.
  repeat (split; [done|]).
  rewrite bind_run. unfold await at 1.
  destruct (deleteRadarrMovie _ _ _) as [[]|e]; reflexivity.
Qed.

(* ===================================================================== *)
(** ** The season number *)
(* ===================================================================== *)

Definition starts_with_digit (s : string) : bool :=
  match s with
  | String c _ => is_digit c
  | EmptyString => false
  end.

Lemma digit_is_plain (c : ascii) :
  is_digit c = true →
  is_white c = false ∧ c ≠ "-"%char ∧ c ≠ "+"%char ∧ c ≠ "x"%char
  ∧ c ≠ "X"%char ∧ ∃ d, digit_val c = Some d ∧ 0 <= d.
Proof.
  destruct c as [[] [] [] [] [] [] [] []]; vm_compute; intros H;
    try discriminate H;
    (repeat split; try discriminate; eexists; split; [reflexivity|];
     intros Hc; discriminate Hc).
Qed.

Lemma take_digits_all (s : string) : all_chars is_digit (take_digits s) = true.
Proof.
  induction s as [|c r IH]; [done|]. cbn [take_digits].
  destruct (is_digit c) eqn:Ec; [|done]. cbn [all_chars]. by rewrite Ec, IH.
Qed.

Lemma read_digits_decimal (s : string) (a : Z) :
  all_chars is_digit s = true → 0 <= a →
  ∃ n, read_digits digit_val 10 s (Some a) = Some n ∧ 0 <= n.
Proof.
  revert a. induction s as [|c r IH]; intros a Hall Ha.
  - exists a. done.
  - cbn [all_chars] in Hall. apply andb_true_iff in Hall as [Hc Hr].
    destruct (digit_is_plain c Hc) as (_ & _ & _ & _ & _ & d & Hd & Hd0).
    cbn [read_digits]. rewrite Hd. cbn [default from_option id].
    apply IH; [done|lia].
Qed.

(** [parseInt] reads a non-empty run of decimal digits as a number that is
    not negative. *)
Lemma parseInt_digits (s : string) :
  s ≠ "" → all_chars is_digit s = true → ∃ n, parseInt s = Some n ∧ 0 <= n.
Proof.
  destruct s as [|c r]; [done|]. intros _ Hall.
  cbn [all_chars] in Hall. apply andb_true_iff in Hall as [Hc Hr].
  destruct (digit_is_plain c Hc) as (Hw & Hm & Hp & _ & _ & d & Hd & Hd0).
  assert (Hread : ∃ n, read_digits digit_val 10 (String c r) None = Some n
                       ∧ 0 <= n).
  { cbn [read_digits]. rewrite Hd. cbn [default from_option id].
    apply read_digits_decimal; [done|lia]. }
  destruct Hread as (n & Hn & Hn0). exists n. split; [|done].
  unfold parseInt. cbn [trim_start]. rewrite Hw.
  assert (Hsign : match String c r with
                  | String "-" r' => (-1, r')
                  | String "+" r' => (1, r')
                  | _ => (1, String c r)
                  end = (1, String c r)).
  { destruct c as [[] [] [] [] [] [] [] []]; try reflexivity; done. }
  rewrite Hsign.
  assert (Hradix : match String c r with
                   | String "0" (String "x" r') => (hex_val, 16, r')
                   | String "0" (String "X" r') => (hex_val, 16, r')
                   | _ => (digit_val, 10, String c r)
                   end = (digit_val, 10, String c r)).
  { destruct r as [|c2 r2].
    - destruct c as [[] [] [] [] [] [] [] []]; reflexivity.
    - cbn [all_chars] in Hr. apply andb_true_iff in Hr as [Hc2 _].
      destruct (digit_is_plain c2 Hc2) as (_ & _ & _ & Hx & HX & _).
      destruct c as [[] [] [] [] [] [] [] []]; try reflexivity;
        destruct c2 as [[] [] [] [] [] [] [] []]; try reflexivity; done. }
  rewrite Hradix, Hn. cbn. f_equal. lia.
Qed.

Lemma match_digits_Some (s d : string) :
  match_digits s = Some d → d ≠ "" ∧ all_chars is_digit d = true.
Proof.
  revert d. induction s as [|c r IH]; intros d; [discriminate|].
  cbn [match_digits]. destruct (is_digit c) eqn:Ec; [|apply IH].
  intros Heq. assert (d = take_digits (String c r)) as -> by congruence.
  split; [cbn [take_digits]; by rewrite Ec|apply take_digits_all].
Qed.

Lemma match_digits_None (s : string) :
  match_digits s = None ↔ all_chars (λ c, negb (is_digit c)) s = true.
Proof.
  induction s as [|c r IH]; [done|]. cbn [match_digits all_chars].
  destruct (is_digit c); cbn; [split; discriminate|exact IH].
Qed.

Lemma append_String (c : ascii) (r rest : string) :
  String c r ++ rest = String c (r ++ rest).
Proof. reflexivity. Qed.

Lemma match_digits_skip (pre rest : string) :
  all_chars (λ c, negb (is_digit c)) pre = true →
  match_digits (pre ++ rest) = match_digits rest.
Proof.
  induction pre as [|c r IH]; [done|]. cbn [all_chars].
  intros [Hc Hr]%andb_true_iff. rewrite append_String. cbn [match_digits].
  apply negb_true_iff in Hc. rewrite Hc. by apply IH.
Qed.

Lemma take_digits_run (d rest : string) :
  all_chars is_digit d = true → starts_with_digit rest = false →
  take_digits (d ++ rest) = d.
Proof.
  intros Hd Hrest. induction d as [|c r IH].
  - change ("" ++ rest) with rest. destruct rest as [|c2 r2]; [done|].
    cbn [starts_with_digit] in Hrest. cbn [take_digits]. by rewrite Hrest.
  - cbn [all_chars] in Hd. apply andb_true_iff in Hd as [Hc Hr].
    rewrite append_String. cbn [take_digits]. rewrite Hc. by rewrite IH.
Qed.

(** The season number read off an item name: a name without a decimal
    digit gives none; otherwise the match is the first run of digits of
    the name, taken to its end, and [parseInt] turns it into a number that
    is neither [NaN] nor negative. *)
Theorem season_number_extraction (name : string) :
  (match_digits name = None ↔
   all_chars (λ c, negb (is_digit c)) name = true)
  ∧ (∀ digits, match_digits name = Some digits →
       digits ≠ "" ∧ all_chars is_digit digits = true
       ∧ ∃ n, parseInt digits = Some n ∧ 0 <= n)
  ∧ (∀ pre digits rest,
       name = pre ++ digits ++ rest →
       all_chars (λ c, negb (is_digit c)) pre = true →
       digits ≠ "" → all_chars is_digit digits = true →
       starts_with_digit rest = false →
       match_digits name = Some digits).
Proof.
  split; [apply match_digits_None|]. split.
  - intros digits Hm. destruct (match_digits_Some _ _ Hm) as [Hne Hall].
    split; [done|]. split; [done|]. by apply parseInt_digits.
  - intros pre digits rest -> Hpre Hne Hall Hrest.
    rewrite match_digits_skip by done.
    destruct digits as [|c r]; [done|].
    cbn [all_chars] in Hall. apply andb_true_iff in Hall as [Hc Hr].
    rewrite append_String. cbn [match_digits]. rewrite Hc. f_equal.
    rewrite <- append_String.
    apply (take_digits_run (String c r) rest); [|done].
    cbn [all_chars]. by rewrite Hc, Hr.
Qed.

(* ===================================================================== *)
(** ** What a scan leaves *)
(* ===================================================================== *)

Lemma handleScan_success (svc : Services) (ctx : option SettingsContextType)
    (jf : ServiceSettings) (allItems : list JellyfinItem) (r : Run) :
  (ctx ≫= settings) ≫= jellyfin = Some jf →
  getItems svc (history r) ["Movie"; "Season"] = Ok allItems →
  handleScan svc ctx r =
  ({| app :=
        {| isLoading := false;
           deletableItems :=
             evaluate (exclusions (app r)) (movieRetentionDays ctx)
               (tvSeasonRetentionDays ctx) (clock svc (S (S (reads r))))
               allItems;
           selectedItems :=
             list_to_set
               (Id <$> evaluate (exclusions (app r)) (movieRetentionDays ctx)
                         (tvSeasonRetentionDays ctx)
                         (clock svc (S (S (reads r)))) allItems);
           logs :=
             {| stamp := clock svc (S (S (S (reads r))));
                message :=
                  logScanComplete
                    (length (evaluate (exclusions (app r))
                               (movieRetentionDays ctx)
                               (tvSeasonRetentionDays ctx)
                               (clock svc (S (S (reads r)))) allItems)) |}
             :: {| stamp := clock svc (S (reads r));
                   message := logScanFoundItems (length allItems) |}
             :: {| stamp := clock svc (reads r); message := logScanStarted |}
             :: logs (app r);
           error := None;
           isModalOpen := isModalOpen (app r);
           exclusions := exclusions (app r) |};
      history := CallGetItems ["Movie"; "Season"] :: history r;
      reads := S (S (S (S (reads r))));
      successCount := successCount r |}, Ok tt).
Proof.
  intros Hjf Hitems. unfold handleScan. rewrite Hjf.
  repeat (rewrite bind_run; cbn [setIsLoading setError setDeletableItems
                                 setSelectedItems modify_app]).
  rewrite addLog_log, bind_run. unfold try_catch at 1.
  rewrite bind_run. unfold await at 1.
  cbn [history record_call app]. rewrite Hitems.
  reflexivity.
Qed.

Lemma handleScan_failure (svc : Services) (ctx : option SettingsContextType)
    (jf : ServiceSettings) (e : string) (r : Run) :
  (ctx ≫= settings) ≫= jellyfin = Some jf →
  getItems svc (history r) ["Movie"; "Season"] = Throw e →
  handleScan svc ctx r =
  ({| app :=
        {| isLoading := false;
           deletableItems := [];
           selectedItems := ∅;
           logs :=
             {| stamp := clock svc (S (reads r)); message := logError e |}
             :: {| stamp := clock svc (reads r); message := logScanStarted |}
             :: logs (app r);
           error := Some (logScanError e);
           isModalOpen := isModalOpen (app r);
           exclusions := exclusions (app r) |};
      history := CallGetItems ["Movie"; "Season"] :: history r;
      reads := S (S (reads r));
      successCount := successCount r |}, Ok tt).
Proof.
  intros Hjf Hitems. unfold handleScan. rewrite Hjf.
  repeat (rewrite bind_run; cbn [setIsLoading setError setDeletableItems
                                 setSelectedItems modify_app]).
  rewrite addLog_log, bind_run. unfold try_catch at 1.
  rewrite bind_run. unfold await at 1.
  cbn [history record_call app]. rewrite Hitems.
  reflexivity.
Qed.

Lemma isDeletable_true (excl : list string) (movieDays seasonDays now : Z)
    (item : JellyfinItem) :
  isDeletable excl movieDays seasonDays now item = true →
  (Id item ∉ excl) ∧ (Type_ item = "Movie" ∨ Type_ item = "Season").
Proof.
  unfold isDeletable. case_bool_decide as Hx; [discriminate|].
  intros Ht. split; [done|].
  destruct (String.eqb_spec (Type_ item) "Movie"); [by left|].
  destruct (String.eqb_spec (Type_ item) "Season"); [by right|].
  discriminate Ht.
Qed.

Lemma filter_sublist {A} (f : A → bool) (l : list A) :
  sublist (List.filter f l) l.
Proof.
  induction l as [|a l IH]; [constructor|].
  cbn [List.filter]. destruct (f a); by constructor.
Qed.


(** A scan whose catalog query is rejected empties the pool and the
    selection, shows the error in the banner, logs it, and clears the
    loading flag. *)
Theorem scan_failure (svc : Services) (ctx : option SettingsContextType)
    (jf : ServiceSettings) (e : string) (r : Run) :
  (ctx ≫= settings) ≫= jellyfin = Some jf →
  getItems svc (history r) ["Movie"; "Season"] = Throw e →
  deletableItems (app (fst (handleScan svc ctx r))) = []
  ∧ selectedItems (app (fst (handleScan svc ctx r))) = ∅
  ∧ error (app (fst (handleScan svc ctx r))) = Some (logScanError e)
  ∧ messages (fst (handleScan svc ctx r))
    = logError e :: logScanStarted :: messages r
  ∧ isLoading (app (fst (handleScan svc ctx r))) = false.
Proof.
  intros Hjf Hitems. rewrite (handleScan_failure svc ctx jf e r Hjf Hitems).
  done.
Qed.

(** [handleScan] is memoised with [useCallback]: the list it filters with
    is the [exclusions] of the render that created the handler, not the
    list at the time the filter runs.  [handleScanWith] is [handleScan]
    with that captured list made explicit. *)
Definition handleScanWith (svc : Services)
    (settingsCtx : option SettingsContextType) (captured : list string)
    : M unit :=
  match (settingsCtx ≫= settings) ≫= jellyfin with
  | None => setError (Some automationJellyfinNotConfigured)
  | Some _ =>
      setIsLoading true ;;
      setError None ;;
      setDeletableItems (λ _, []) ;;
      setSelectedItems (λ _, ∅) ;;
      addLog svc logScanStarted ;;
      try_catch
        (allItems ← await (CallGetItems ["Movie"; "Season"])
                      (λ h, getItems svc h ["Movie"; "Season"]);
         addLog svc (logScanFoundItems (length allItems)) ;;
         now ← readClock svc;
         let itemsToFilter :=
           evaluate captured (movieRetentionDays settingsCtx)
             (tvSeasonRetentionDays settingsCtx) now allItems in
         setDeletableItems (λ _, itemsToFilter) ;;
         setSelectedItems (λ _, list_to_set (Id <$> itemsToFilter)) ;;
         addLog svc (logScanComplete (length itemsToFilter)))
        (λ errorMessage,
           setError (Some (logScanError errorMessage)) ;;
           addLog svc (logError errorMessage)) ;;
      setIsLoading false
  end.

(** A scan started from the render it was created by, with no exclusion
    made in between, is the scan that reads the list from the state. *)
Lemma handleScanWith_current (svc : Services)
    (ctx : option SettingsContextType) (r : Run) :
  handleScanWith svc ctx (exclusions (app r)) r = handleScan svc ctx r.
Proof.
  destruct ((ctx ≫= settings) ≫= jellyfin) as [jf|] eqn:Hjf.
  2:{ unfold handleScanWith, handleScan. by rewrite Hjf. }
  destruct (getItems svc (history r) ["Movie"; "Season"])
    as [allItems|e] eqn:Hitems.
  - rewrite (handleScan_success svc ctx jf allItems r Hjf Hitems).
    unfold handleScanWith. rewrite Hjf.
    repeat (rewrite bind_run; cbn [setIsLoading setError setDeletableItems
                                   setSelectedItems modify_app]).
    rewrite addLog_log, bind_run. unfold try_catch at 1.
    rewrite bind_run. unfold await at 1.
    cbn [history record_call app]. rewrite Hitems.
    reflexivity.
  - rewrite (handleScan_failure svc ctx jf e r Hjf Hitems).
    unfold handleScanWith. rewrite Hjf.
    repeat (rewrite bind_run; cbn [setIsLoading setError setDeletableItems
                                   setSelectedItems modify_app]).
    rewrite addLog_log, bind_run. unfold try_catch at 1.
    rewrite bind_run. unfold await at 1.
    cbn [history record_call app]. rewrite Hitems.
    reflexivity.
Qed.

Lemma handleScanWith_pool (svc : Services) (ctx : option SettingsContextType)
    (captured : list string) (r : Run) (item : JellyfinItem) :
  item ∈ deletableItems (app (fst (handleScanWith svc ctx captured r))) →
  Id item ∉ captured ∨ item ∈ deletableItems (app r).
Proof.
  unfold handleScanWith.
  destruct ((ctx ≫= settings) ≫= jellyfin) as [jf|]; [|by right].
  repeat (rewrite bind_run; cbn [setIsLoading setError setDeletableItems
                                 setSelectedItems modify_app]).
  rewrite addLog_log, bind_run. unfold try_catch at 1.
  rewrite bind_run. unfold await at 1.
  cbn [history record_call app].
  destruct (getItems svc (history r) ["Movie"; "Season"]) as [allItems|e].
  - cbn. intros [_ Ht]%elem_of_evaluate. left.
    by apply isDeletable_true in Ht as [Hx _].
  - cbn. by intros ?%elem_of_nil.
Qed.

(** X9: a scan filters with the exclusion list captured by the render that
    created its handler.  When that list holds the identifier of an item,
    as it does for every handler created after the item was excluded, a
    scan that runs after the exclusion brings no entry with that identifier
    back into the pool, whatever the catalog answers and whether or not the
    catalog is configured.  (A handler created before the exclusion, such
    as the one a deletion already in flight calls when it ends, gives no
    such guarantee: see [stale_scan_brings_item_back].) *)
Theorem scan_keeps_captured_exclusion_out (svc : Services)
    (ctx : option SettingsContextType) (itemToExclude : JellyfinItem)
    (captured : list string) (r : Run) (item : JellyfinItem) :
  Id itemToExclude ∈ captured →
  item ∈ deletableItems
           (app (fst (handleScanWith svc ctx captured
                        (fst (handleExcludeItem svc itemToExclude r))))) →
  Id item ≠ Id itemToExclude.
Proof.
  intros Hcaptured [Hout|Hpool]%handleScanWith_pool.
  - intros Heq. apply Hout. by rewrite Heq.
  - revert Hpool. cbn. intros [_ Hx]%list_elem_of_In%filter_In.
    by apply negb_true_iff, String.eqb_neq in Hx.
Qed.

(* ===================================================================== *)
(** ** Removing an exclusion, toggling a selection *)
(* ===================================================================== *)

(** [handleRemoveExclusion] of the Exclusions view.  The view keeps its
    list under the storage key of the Automation view's exclusions, so it
    acts on the same stored list:
    [setExcludedIds(prev => prev.filter(id => id !== itemId))]. *)
Definition handleRemoveExclusion (itemId : string) : M unit :=
  setExclusions (List.filter (λ id, negb (String.eqb id itemId))).

(** [handleToggleSelection]: a copy of the set, without [itemId] when it
    was there and with it otherwise. *)
Definition handleToggleSelection (itemId : string) : M unit :=
  setSelectedItems
    (λ prev, if bool_decide (itemId ∈ prev) then prev ∖ {[itemId]}
             else prev ∪ {[itemId]}).

Lemma elem_of_remove (itemId x : string) (l : list string) :
  x ∈ List.filter (λ id, negb (String.eqb id itemId)) l ↔ x ∈ l ∧ x ≠ itemId.
Proof.
  rewrite !list_elem_of_In, filter_In, negb_true_iff, String.eqb_neq. done.
Qed.

Lemma remove_absent (itemId : string) (l : list string) :
  itemId ∉ l → List.filter (λ id, negb (String.eqb id itemId)) l = l.
Proof.
  induction l as [|a l IH]; [done|].
  rewrite not_elem_of_cons. intros [Hne Hl]. cbn [List.filter].
  destruct (String.eqb_spec a itemId); [congruence|]. cbn. by rewrite IH.
Qed.

Lemma NoDup_list_filter {A} (f : A → bool) (l : list A) :
  NoDup l → NoDup (List.filter f l).
Proof.
  induction 1 as [|a l Ha Hl IH]; cbn [List.filter]; [constructor|].
  destruct (f a); [|done]. constructor; [|done].
  rewrite list_elem_of_In, filter_In, <- list_elem_of_In. tauto.
Qed.

(** Removing an exclusion takes the identifier out of the stored list and
    leaves every other identifier in, in the same order; removing an
    identifier that is not stored changes nothing. *)
Theorem remove_exclusion (itemId : string) (r : Run) :
  (itemId ∉ exclusions (app (fst (handleRemoveExclusion itemId r))))
  ∧ (∀ x, x ≠ itemId →
       x ∈ exclusions (app (fst (handleRemoveExclusion itemId r)))
       ↔ x ∈ exclusions (app r))
  ∧ sublist (exclusions (app (fst (handleRemoveExclusion itemId r))))
      (exclusions (app r))
  ∧ (itemId ∉ exclusions (app r) →
     exclusions (app (fst (handleRemoveExclusion itemId r)))
     = exclusions (app r)).
Proof.
  cbn [handleRemoveExclusion setExclusions modify_app fst app exclusions].
  split; [|split; [|split]].
  - rewrite elem_of_remove. tauto.
  - intros x Hx. rewrite elem_of_remove. tauto.
  - apply filter_sublist.
  - apply remove_absent.
Qed.

(** Excluding an item and then removing the exclusion gives back the
    stored list as it was, when the identifier was not stored before and
    the list had no duplicate; the evaluator then treats every entry as it
    did before the exclusion. *)
Theorem exclude_then_remove (svc : Services) (item : JellyfinItem) (r : Run) :
  Id item ∉ exclusions (app r) →
  NoDup (exclusions (app r)) →
  exclusions (app (fst (handleRemoveExclusion (Id item)
                          (fst (handleExcludeItem svc item r)))))
  = exclusions (app r)
  ∧ ∀ movieDays seasonDays now allItems,
      evaluate (exclusions (app (fst (handleRemoveExclusion (Id item)
                                        (fst (handleExcludeItem svc item r))))))
        movieDays seasonDays now allItems
      = evaluate (exclusions (app r)) movieDays seasonDays now allItems.
Proof.
  intros Hnew Hnd.
  assert (Heq : exclusions (app (fst (handleRemoveExclusion (Id item)
                                        (fst (handleExcludeItem svc item r)))))
                = exclusions (app r)).
  { cbn [handleRemoveExclusion setExclusions modify_app fst app exclusions].
    rewrite handleExcludeItem_exclusions.
    rewrite set_spread_NoDup.
    - rewrite List.filter_app, remove_absent by done. cbn [List.filter].
      rewrite String.eqb_refl. cbn. apply app_nil_r.
    - apply NoDup_app. split; [done|]. split; [|apply NoDup_singleton].
      intros x Hx ->%list_elem_of_singleton. done. }
  split; [exact Heq|]. intros. by rewrite Heq.
Qed.

(** Toggling flips the membership of the one identifier and of no other;
    toggling twice gives the selection back. *)
Theorem toggle_selection (itemId : string) (r : Run) :
  (itemId ∈ selectedItems (app (fst (handleToggleSelection itemId r)))
   ↔ itemId ∉ selectedItems (app r))
  ∧ (∀ x, x ≠ itemId →
       x ∈ selectedItems (app (fst (handleToggleSelection itemId r)))
       ↔ x ∈ selectedItems (app r))
  ∧ selectedItems
      (app (fst (handleToggleSelection itemId
                   (fst (handleToggleSelection itemId r)))))
    = selectedItems (app r).
Proof.
  cbn [handleToggleSelection setSelectedItems modify_app fst app selectedItems].
  split; [|split].
  - case_bool_decide;
      rewrite ?elem_of_difference, ?elem_of_union, ?elem_of_singleton;
      intuition congruence.
  - intros x Hx. case_bool_decide;
      rewrite ?elem_of_difference, ?elem_of_union, ?elem_of_singleton;
      intuition congruence.
  - apply set_eq. intros x.
    destruct (decide (x = itemId)) as [->|Hx];
      repeat case_bool_decide;
      repeat (rewrite ?elem_of_difference, ?elem_of_union,
                ?elem_of_singleton in *);
      intuition congruence.
Qed.

Lemma handleDelete_stable_exclusions (svc : Services)
    (ctx : option SettingsContextType) :
  stable keeps_exclusions (handleDelete svc ctx).
Proof. unfold handleDelete. frame. Qed.

(** The stored exclusion list never acquires a duplicate: every handler
    that can touch the state keeps a duplicate-free list duplicate-free. *)
Theorem exclusions_stay_duplicate_free (svc : Services)
    (ctx : option SettingsContextType) (r : Run) :
  NoDup (exclusions (app r)) →
  (∀ item, NoDup (exclusions (app (fst (handleExcludeItem svc item r)))))
  ∧ NoDup (exclusions (app (fst (handleExcludeAll svc r))))
  ∧ (∀ itemId, NoDup (exclusions (app (fst (handleRemoveExclusion itemId r)))))
  ∧ (∀ itemId, NoDup (exclusions (app (fst (handleToggleSelection itemId r)))))
  ∧ NoDup (exclusions (app (fst (handleScan svc ctx r))))
  ∧ NoDup (exclusions (app (fst (handleDelete svc ctx r)))).
Proof.
  intros Hnd. split; [|split; [|split; [|split; [|split]]]].
  - intros item. rewrite handleExcludeItem_exclusions. apply NoDup_set_spread.
  - destruct (decide (deletableItems (app r) = [])) as [Hnil|Hne].
    + unfold handleExcludeAll. rewrite bind_run. cbn [get_app]. by rewrite Hnil.
    + destruct (handleExcludeAll_run svc r Hne) as (-> & _).
      apply NoDup_set_spread.
  - intros itemId. by apply NoDup_list_filter.
  - done.
  - by rewrite (handleScan_stable_exclusions svc ctx r).
  - by rewrite (handleDelete_stable_exclusions svc ctx r).
Qed.

(* ===================================================================== *)
(** ** The Exclusions view *)
(* ===================================================================== *)

Inductive ExclusionsError : Type :=
  | exclusionsFetchError (error : string).

(** The state of the Exclusions view beside the stored identifiers. *)
Record ExclusionsView : Type := {
  excludedItems : list JellyfinItem;
  view_isLoading : bool;
  view_error : option ExclusionsError
}.

(** [fetchExcludedItems], run by the effect of the view whenever the
    settings or the stored identifiers change: the view after it, and the
    calls issued so far. *)
Definition fetchExcludedItems (svc : Services)
    (settingsCtx : option SettingsContextType) (excludedIds : list string)
    (h : list Call) (v : ExclusionsView) : ExclusionsView * list Call :=
  match (settingsCtx ≫= settings) ≫= jellyfin with
  | None =>
      ({| excludedItems := []; view_isLoading := view_isLoading v;
          view_error := view_error v |}, h)
  | Some _ =>
      if (length excludedIds =? 0)%nat then
        ({| excludedItems := []; view_isLoading := view_isLoading v;
            view_error := view_error v |}, h)
      else
        match getItemsByIds svc h excludedIds with
        | Ok items =>
            ({| excludedItems := items; view_isLoading := false;
                view_error := None |},
             CallGetItemsByIds excludedIds :: h)
        | Throw errorMessage =>
            ({| excludedItems := excludedItems v; view_isLoading := false;
                view_error := Some (exclusionsFetchError errorMessage) |},
             CallGetItemsByIds excludedIds :: h)
        end
  end.

(** The Exclusions view asks the catalog only when it has to: with no
    stored identifier, or no catalog settings, it shows an empty list
    without any call; otherwise it issues exactly one call, for exactly the
    stored identifiers.  When that call is rejected the view keeps the
    items it showed and reports the error; in both cases it stops loading. *)
Theorem fetchExcludedItems_calls (svc : Services)
    (ctx : option SettingsContextType) (excludedIds : list string)
    (h : list Call) (v : ExclusionsView) :
  (excludedIds = [] ∨ (ctx ≫= settings) ≫= jellyfin = None →
   fetchExcludedItems svc ctx excludedIds h v =
   ({| excludedItems := []; view_isLoading := view_isLoading v;
       view_error := view_error v |}, h))
  ∧ (excludedIds ≠ [] → (ctx ≫= settings) ≫= jellyfin ≠ None →
     snd (fetchExcludedItems svc ctx excludedIds h v)
     = CallGetItemsByIds excludedIds :: h
     ∧ view_isLoading (fst (fetchExcludedItems svc ctx excludedIds h v)) = false
     ∧ (∀ items, getItemsByIds svc h excludedIds = Ok items →
          excludedItems (fst (fetchExcludedItems svc ctx excludedIds h v))
          = items
          ∧ view_error (fst (fetchExcludedItems svc ctx excludedIds h v))
            = None)
     ∧ (∀ e, getItemsByIds svc h excludedIds = Throw e →
          excludedItems (fst (fetchExcludedItems svc ctx excludedIds h v))
          = excludedItems v
          ∧ view_error (fst (fetchExcludedItems svc ctx excludedIds h v))
            = Some (exclusionsFetchError e))).
Proof.
  unfold fetchExcludedItems. split.
  - intros [-> | ->]; [|reflexivity].
    destruct ((ctx ≫= settings) ≫= jellyfin); reflexivity.
  - intros Hids Hjf.
    destruct ((ctx ≫= settings) ≫= jellyfin) as [jf|]; [|done].
    destruct excludedIds as [|id ids]; [done|]. cbn [length Nat.eqb].
    destruct (getItemsByIds svc h (id :: ids)) as [items|e]; cbn;
      repeat split; intros; congruence.
Qed.

(** Removing the last stored identifier empties the Exclusions view
    without a catalog call: the effect runs [fetchExcludedItems] on the
    list that [handleRemoveExclusion] leaves. *)
Theorem removing_last_exclusion_clears_view (svc : Services)
    (ctx : option SettingsContextType) (itemId : string) (r : Run)
    (v : ExclusionsView) :
  (∀ x, x ∈ exclusions (app r) → x = itemId) →
  fetchExcludedItems svc ctx
    (exclusions (app (fst (handleRemoveExclusion itemId r)))) (history r) v
  = ({| excludedItems := []; view_isLoading := view_isLoading v;
        view_error := view_error v |}, history r).
Proof.
  intros Honly.
  assert (Hnil : exclusions (app (fst (handleRemoveExclusion itemId r))) = []).
  { cbn [handleRemoveExclusion setExclusions modify_app fst app exclusions].
    induction (exclusions (app r)) as [|a l IH]; [done|].
    cbn [List.filter]. rewrite (Honly a) by apply list_elem_of_here.
    rewrite String.eqb_refl. cbn [negb]. apply IH.
    intros x Hx. apply Honly. by apply list_elem_of_further. }
  rewrite Hnil. unfold fetchExcludedItems.
  destruct ((ctx ≫= settings) ≫= jellyfin); reflexivity.
Qed.

(* ===================================================================== *)
(** ** Which view is on screen *)
(* ===================================================================== *)

(** The views of the application (['dashboard'], ['automation'],
    ['settings'], ['exclusions']) and what [renderView] puts on screen. *)
Inductive View : Type :=
  | ViewDashboard
  | ViewAutomation
  | ViewSettings
  | ViewExclusions.

Inductive Screen : Type :=
  | Welcome
  | ShowDashboard
  | ShowAutomation
  | ShowExclusions
  | ShowSettings.

(** [settings?.jellyfin?.url] as a condition. *)
Definition hasJellyfinUrl (s : option JccSettings) : bool :=
  match s ≫= jellyfin with
  | Some jf => negb (String.eqb (url jf) "")
  | None => false
  end.

Definition renderView (s : option JccSettings) (view : View) : Screen :=
  if negb (hasJellyfinUrl s)
     && negb (match view with ViewSettings => true | _ => false end)
  then Welcome
  else match view with
       | ViewDashboard => ShowDashboard
       | ViewAutomation => ShowAutomation
       | ViewExclusions => ShowExclusions
       | ViewSettings => ShowSettings
       end.

(** The Automation view is on screen only when a Jellyfin URL is set, and
    a scan started from it then always queries the catalog: it never stops
    at the banner that says Jellyfin is not configured.  The Settings view
    is reachable whatever the settings are. *)
Theorem automation_view_scans (svc : Services) (s : option JccSettings)
    (view : View) (r : Run) :
  renderView s ViewSettings = ShowSettings
  ∧ (renderView s view = ShowAutomation →
     hasJellyfinUrl s = true
     ∧ history (fst (handleScan svc (Some {| settings := s |}) r))
       = CallGetItems ["Movie"; "Season"] :: history r
     ∧ error (app (fst (handleScan svc (Some {| settings := s |}) r)))
       ≠ Some automationJellyfinNotConfigured).
Proof.
  split.
  { unfold renderView. by rewrite andb_false_r. }
  intros Hview.
  assert (Hurl : hasJellyfinUrl s = true).
  { unfold renderView in Hview. destruct (hasJellyfinUrl s); [done|].
    destruct view; discriminate Hview. }
  split; [exact Hurl|].
  assert (Hjf : ∃ jf,
            (Some {| settings := s |} ≫= settings) ≫= jellyfin = Some jf).
  { unfold hasJellyfinUrl in Hurl. cbn.
    destruct (s ≫= jellyfin) as [jf|]; [by exists jf|discriminate]. }
  destruct Hjf as [jf Hjf].
  destruct (getItems svc (history r) ["Movie"; "Season"])
    as [allItems|e] eqn:Hitems.
  - rewrite (handleScan_success svc _ jf allItems r Hjf Hitems). done.
  - rewrite (handleScan_failure svc _ jf e r Hjf Hitems). done.
Qed.

(* ===================================================================== *)
(** ** The dashboard *)
(* ===================================================================== *)

Inductive ServiceStatus : Type :=
  | online
  | offline
  | unconfigured.

Record Statuses : Type := {
  status_jellyfin : ServiceStatus;
  status_radarr : ServiceStatus;
  status_sonarr : ServiceStatus
}.

Section Dashboard.

(** The entries of the series manager's calendar (declared in src/types,
    which is not part of the sources); the dashboard only stores them. *)
Variable CalendarItem : Type.

Record DashboardState : Type := {
  statuses : Statuses;
  latestMovies : list JellyfinItem;
  latestSeries : list JellyfinItem;
  upcomingCalendar : list CalendarItem;
  dash_isLoading : bool
}.

(** How each request of one load settles. *)
Record DashboardAnswers : Type := {
  latestMoviesAnswer : result (list JellyfinItem);
  latestSeriesAnswer : result (list JellyfinItem);
  radarrPing : result unit;
  sonarrPing : result unit;
  calendarAnswer : result (list CalendarItem)
}.

(** The state updates the promise callbacks make; each callback runs to
    its end before another starts. *)
Inductive Callback : Type :=
  | MoviesLoaded (movies : list JellyfinItem)
  | JellyfinOffline
  | SeriesLoaded (series : list JellyfinItem)
  | RadarrStatus (st : ServiceStatus)
  | SonarrStatus (st : ServiceStatus)
  | CalendarLoaded (calendar : list CalendarItem).

Definition setStatuses (f : Statuses → Statuses) (s : DashboardState)
    : DashboardState :=
  {| statuses := f (statuses s); latestMovies := latestMovies s;
     latestSeries := latestSeries s; upcomingCalendar := upcomingCalendar s;
     dash_isLoading := dash_isLoading s |}.

Definition setDashLoading (b : bool) (s : DashboardState) : DashboardState :=
  {| statuses := statuses s; latestMovies := latestMovies s;
     latestSeries := latestSeries s; upcomingCalendar := upcomingCalendar s;
     dash_isLoading := b |}.

Definition run_callback (c : Callback) (s : DashboardState) : DashboardState :=
  match c with
  | MoviesLoaded movies =>
      setStatuses
        (λ st, {| status_jellyfin := online; status_radarr := status_radarr st;
                  status_sonarr := status_sonarr st |})
        {| statuses := statuses s; latestMovies := movies;
           latestSeries := latestSeries s;
           upcomingCalendar := upcomingCalendar s;
           dash_isLoading := dash_isLoading s |}
  | JellyfinOffline =>
      setStatuses
        (λ st, {| status_jellyfin := offline; status_radarr := status_radarr st;
                  status_sonarr := status_sonarr st |}) s
  | SeriesLoaded series =>
      {| statuses := statuses s; latestMovies := latestMovies s;
         latestSeries := series; upcomingCalendar := upcomingCalendar s;
         dash_isLoading := dash_isLoading s |}
  | RadarrStatus v =>
      setStatuses
        (λ st, {| status_jellyfin := status_jellyfin st; status_radarr := v;
                  status_sonarr := status_sonarr st |}) s
  | SonarrStatus v =>
      setStatuses
        (λ st, {| status_jellyfin := status_jellyfin st;
                  status_radarr := status_radarr st; status_sonarr := v |}) s
  | CalendarLoaded calendar =>
      {| statuses := statuses s; latestMovies := latestMovies s;
         latestSeries := latestSeries s; upcomingCalendar := calendar;
         dash_isLoading := dash_isLoading s |}
  end.

Definition run_callbacks (order : list Callback) (s : DashboardState)
    : DashboardState :=
  foldl (λ s c, run_callback c s) s order.

(** The callbacks of the four promises pushed by [fetchDashboardData], each
    in the order in which that promise runs them. *)
Definition moviesChain (ans : DashboardAnswers) : list Callback :=
  match latestMoviesAnswer ans with
  | Ok movies => [MoviesLoaded movies]
  | Throw _ => [JellyfinOffline]
  end.

Definition seriesChain (ans : DashboardAnswers) : list Callback :=
  match latestSeriesAnswer ans with
  | Ok series => [SeriesLoaded series]
  | Throw _ => []
  end.

Definition radarrChain (cfg : JccSettings) (ans : DashboardAnswers)
    : list Callback :=
  if configured (radarr cfg) then
    [RadarrStatus (match radarrPing ans with
                   | Ok _ => online
                   | Throw _ => offline
                   end)]
  else [].

Definition sonarrChain (cfg : JccSettings) (ans : DashboardAnswers)
    : list Callback :=
  if configured (sonarr cfg) then
    match sonarrPing ans with
    | Ok _ =>
        [SonarrStatus online;
         match calendarAnswer ans with
         | Ok calendar => CalendarLoaded calendar
         | Throw _ => SonarrStatus offline
         end]
    | Throw _ => [SonarrStatus offline]
    end
  else [].

(** [order] runs the callbacks of four promises, those of each promise in
    its own order, interleaved in any way. *)
Inductive Interleaved : list Callback → list Callback → list Callback →
    list Callback → list Callback → Prop :=
  | interleaved_nil : Interleaved [] [] [] [] []
  | interleaved_1 x a b c d order :
      Interleaved a b c d order → Interleaved (x :: a) b c d (x :: order)
  | interleaved_2 x a b c d order :
      Interleaved a b c d order → Interleaved a (x :: b) c d (x :: order)
  | interleaved_3 x a b c d order :
      Interleaved a b c d order → Interleaved a b (x :: c) d (x :: order)
  | interleaved_4 x a b c d order :
      Interleaved a b c d order → Interleaved a b c (x :: d) (x :: order).

(** [fetchDashboardData] once every request has settled, the callbacks
    having run in [order].  [Promise.all] rejects when the series listing,
    the one promise without a [catch], rejects; [setIsLoading(false)] after
    it is then not reached. *)
Definition fetchDashboardData (settingsCtx : option SettingsContextType)
    (ans : DashboardAnswers) (order : list Callback) (s : DashboardState)
    : DashboardState :=
  if negb (hasJellyfinUrl (settingsCtx ≫= settings)) then setDashLoading false s
  else
    let s' := run_callbacks order (setDashLoading true s) in
    if is_ok (latestSeriesAnswer ans) then setDashLoading false s' else s'.

(** The promise a callback belongs to. *)
Definition promiseOf (c : Callback) : nat :=
  match c with
  | MoviesLoaded _ | JellyfinOffline => 1
  | SeriesLoaded _ => 2
  | RadarrStatus _ => 3
  | SonarrStatus _ | CalendarLoaded _ => 4
  end.

Lemma run_callback_commute (x y : Callback) (s : DashboardState) :
  promiseOf x ≠ promiseOf y →
  run_callback x (run_callback y s) = run_callback y (run_callback x s).
Proof. destruct x, y; cbn; intros H; try reflexivity; done. Qed.

Lemma run_callbacks_commute (y : Callback) (l : list Callback)
    (s : DashboardState) :
  Forall (λ x, promiseOf x ≠ promiseOf y) l →
  run_callbacks l (run_callback y s) = run_callback y (run_callbacks l s).
Proof.
  intros Hl. revert s. induction Hl as [|x l Hx Hl IH]; intros s; [done|].
  cbn [run_callbacks foldl]. rewrite <- run_callback_commute by done.
  apply IH.
Qed.

Lemma run_callbacks_app (a b : list Callback) (s : DashboardState) :
  run_callbacks (a ++ b) s = run_callbacks b (run_callbacks a s).
Proof. apply foldl_app. Qed.

Lemma run_insert (pre post : list Callback) (x : Callback)
    (s : DashboardState) :
  Forall (λ y, promiseOf y ≠ promiseOf x) pre →
  run_callbacks (pre ++ post) (run_callback x s)
  = run_callbacks (pre ++ x :: post) s.
Proof.
  intros Hpre. rewrite !run_callbacks_app, run_callbacks_commute by done.
  reflexivity.
Qed.

Lemma other_promise (n m : nat) (x : Callback) (l : list Callback) :
  n ≠ m → promiseOf x = m → Forall (λ y, promiseOf y = n) l →
  Forall (λ y, promiseOf y ≠ promiseOf x) l.
Proof.
  intros Hnm Hx Hl. eapply Forall_impl; [exact Hl|].
  cbn. intros y ->. by rewrite Hx.
Qed.

(** Callbacks of different promises touch different parts of the state, so
    any interleaving ends where running the promises one after the other
    ends. *)
Lemma run_interleaved (a b c d order : list Callback) (s : DashboardState) :
  Interleaved a b c d order →
  Forall (λ x, promiseOf x = 1%nat) a → Forall (λ x, promiseOf x = 2%nat) b →
  Forall (λ x, promiseOf x = 3%nat) c → Forall (λ x, promiseOf x = 4%nat) d →
  run_callbacks order s = run_callbacks (a ++ b ++ c ++ d) s.
Proof.
  intros Hm. revert s.
  induction Hm as [|x a b c d order Hm IH|x a b c d order Hm IH
                   |x a b c d order Hm IH|x a b c d order Hm IH];
    intros s Ha Hb Hc Hd; [done|..].
  - apply Forall_cons in Ha as [_ Ha].
    change (run_callbacks (x :: order) s)
      with (run_callbacks order (run_callback x s)).
    by rewrite IH.
  - apply Forall_cons in Hb as [Hx Hb].
    change (run_callbacks (x :: order) s)
      with (run_callbacks order (run_callback x s)).
    rewrite IH by done.
    apply (run_insert a (b ++ c ++ d)), (other_promise 1 2); done.
  - apply Forall_cons in Hc as [Hx Hc].
    change (run_callbacks (x :: order) s)
      with (run_callbacks order (run_callback x s)).
    rewrite IH by done. rewrite !(app_assoc a b).
    apply (run_insert (a ++ b) (c ++ d)), Forall_app.
    split; [apply (other_promise 1 3)|apply (other_promise 2 3)]; done.
  - apply Forall_cons in Hd as [Hx Hd].
    change (run_callbacks (x :: order) s)
      with (run_callbacks order (run_callback x s)).
    rewrite IH by done. rewrite !(app_assoc a b), !(app_assoc (a ++ b) c).
    apply (run_insert ((a ++ b) ++ c) d), Forall_app.
    split; [apply Forall_app; split|];
      [apply (other_promise 1 4)|apply (other_promise 2 4)
      |apply (other_promise 3 4)]; done.
Qed.

Lemma chains_owned (cfg : JccSettings) (ans : DashboardAnswers) :
  Forall (λ x, promiseOf x = 1%nat) (moviesChain ans)
  ∧ Forall (λ x, promiseOf x = 2%nat) (seriesChain ans)
  ∧ Forall (λ x, promiseOf x = 3%nat) (radarrChain cfg ans)
  ∧ Forall (λ x, promiseOf x = 4%nat) (sonarrChain cfg ans).
Proof.
  unfold moviesChain, seriesChain, radarrChain, sonarrChain.
  destruct (latestMoviesAnswer ans), (latestSeriesAnswer ans),
    (configured (radarr cfg)), (configured (sonarr cfg)), (sonarrPing ans),
    (calendarAnswer ans); repeat split; repeat constructor.
Qed.

(** The arrival orders of one load. *)
Definition arrival_order (cfg : JccSettings) (ans : DashboardAnswers)
    (order : list Callback) : Prop :=
  Interleaved (moviesChain ans) (seriesChain ans) (radarrChain cfg ans)
    (sonarrChain cfg ans) order.

Lemma fetchDashboardData_in_program_order (ctx : option SettingsContextType)
    (cfg : JccSettings) (ans : DashboardAnswers) (order : list Callback)
    (s : DashboardState) :
  arrival_order cfg ans order →
  fetchDashboardData ctx ans order s =
  fetchDashboardData ctx ans
    (moviesChain ans ++ seriesChain ans ++ radarrChain cfg ans
     ++ sonarrChain cfg ans) s.
Proof.
  intros Horder. unfold fetchDashboardData.
  destruct (chains_owned cfg ans) as (H1 & H2 & H3 & H4).
  by rewrite (run_interleaved _ _ _ _ _ _ Horder H1 H2 H3 H4).
Qed.

(** The state the dashboard ends in does not depend on the order in which
    the responses arrive: any two interleavings of the callbacks of the
    four promises leave the same state. *)
Theorem dashboard_order_independent (ctx : option SettingsContextType)
    (cfg : JccSettings) (ans : DashboardAnswers) (order1 order2 : list Callback)
    (s : DashboardState) :
  ctx ≫= settings = Some cfg →
  arrival_order cfg ans order1 →
  arrival_order cfg ans order2 →
  fetchDashboardData ctx ans order1 s = fetchDashboardData ctx ans order2 s.
Proof.
  intros _ H1 H2.
  rewrite (fetchDashboardData_in_program_order ctx cfg ans order1 s H1).
  by rewrite (fetchDashboardData_in_program_order ctx cfg ans order2 s H2).
Qed.

(** The dashboard stops loading exactly when the series listing succeeds:
    that listing is the one request without a [catch], so when it is
    rejected the loading flag stays set, whatever the other requests
    answer; a rejected movies listing or connection test does not keep it
    set.  Without a Jellyfin URL the flag is cleared at once and nothing
    else changes. *)
Theorem dashboard_loading_flag (ctx : option SettingsContextType)
    (cfg : JccSettings) (ans : DashboardAnswers) (order : list Callback)
    (s : DashboardState) :
  ctx ≫= settings = Some cfg →
  arrival_order cfg ans order →
  (hasJellyfinUrl (ctx ≫= settings) = true →
   dash_isLoading (fetchDashboardData ctx ans order s)
   = negb (is_ok (latestSeriesAnswer ans)))
  ∧ (hasJellyfinUrl (ctx ≫= settings) = false →
     fetchDashboardData ctx ans order s = setDashLoading false s).
Proof.
  intros _ Horder.
  rewrite (fetchDashboardData_in_program_order ctx cfg ans order s Horder).
  unfold fetchDashboardData. split; intros ->; [|reflexivity].
  cbn [negb]. unfold moviesChain, seriesChain, radarrChain, sonarrChain.
  destruct (latestMoviesAnswer ans), (latestSeriesAnswer ans),
    (configured (radarr cfg)), (configured (sonarr cfg)), (sonarrPing ans),
    (calendarAnswer ans); reflexivity.
Qed.

(** After a load with a Jellyfin URL, the Jellyfin status is online when
    the movies listing succeeded and offline otherwise, never
    unconfigured; the status of a configured manager is online or offline
    as its connection test answered, and the status of a manager that is
    not configured is left as it was.  The series manager is shown offline
    also when its connection test succeeded and its calendar request
    failed, and the calendar on screen is replaced only when both
    succeeded. *)
Theorem dashboard_statuses (ctx : option SettingsContextType)
    (cfg : JccSettings) (ans : DashboardAnswers) (order : list Callback)
    (s : DashboardState) :
  ctx ≫= settings = Some cfg →
  arrival_order cfg ans order →
  hasJellyfinUrl (ctx ≫= settings) = true →
  status_jellyfin (statuses (fetchDashboardData ctx ans order s))
  = (if is_ok (latestMoviesAnswer ans) then online else offline)
  ∧ status_radarr (statuses (fetchDashboardData ctx ans order s))
    = (if configured (radarr cfg)
       then if is_ok (radarrPing ans) then online else offline
       else status_radarr (statuses s))
  ∧ status_sonarr (statuses (fetchDashboardData ctx ans order s))
    = (if configured (sonarr cfg)
       then if is_ok (sonarrPing ans) && is_ok (calendarAnswer ans)
            then online else offline
       else status_sonarr (statuses s))
  ∧ upcomingCalendar (fetchDashboardData ctx ans order s)
    = (if configured (sonarr cfg)
       then match sonarrPing ans, calendarAnswer ans with
            | Ok _, Ok calendar => calendar
            | _, _ => upcomingCalendar s
            end
       else upcomingCalendar s).
Proof.
  intros _ Horder Hurl.
  rewrite (fetchDashboardData_in_program_order ctx cfg ans order s Horder).
  unfold fetchDashboardData. rewrite Hurl. cbn [negb].
  unfold moviesChain, seriesChain, radarrChain, sonarrChain.
  destruct (latestMoviesAnswer ans), (latestSeriesAnswer ans),
    (configured (radarr cfg)), (configured (sonarr cfg)), (radarrPing ans),
    (sonarrPing ans), (calendarAnswer ans); done.
Qed.

End Dashboard.

(* ===================================================================== *)
(** ** The look-up of parent series *)
(* ===================================================================== *)

(** The identifiers [handleDelete] asks the catalog for: the parent series
    of the Season items of the batch, each once. *)
Definition seriesIdsOf (itemsToDelete : list JellyfinItem) : list string :=
  set_spread
    (omap (λ s, truthy_str (SeriesId s))
       (List.filter (λ i, String.eqb (Type_ i) "Season") itemsToDelete)).

Lemma seriesIdToProviderIdMap_snoc (parents : list JellyfinItem)
    (p : JellyfinItem) :
  seriesIdToProviderIdMap (parents ++ [p])
  = <[Id p := ProviderIds p ≫= Tvdb]> (seriesIdToProviderIdMap parents).
Proof. unfold seriesIdToProviderIdMap. by rewrite foldl_app. Qed.

(** The map built from the parent series answers a look-up with the Tvdb
    identifier of the last listed entry that has the key as its [Id], and
    with nothing when no entry has it. *)
Lemma seriesIdToProviderIdMap_lookup (parents : list JellyfinItem) (k : string) :
  seriesIdToProviderIdMap parents !! k
  = (λ p, ProviderIds p ≫= Tvdb)
      <$> last (List.filter (λ p, String.eqb (Id p) k) parents).
Proof.
  induction parents as [|p parents IH] using rev_ind; [done|].
  rewrite seriesIdToProviderIdMap_snoc, List.filter_app. cbn [List.filter].
  destruct (String.eqb_spec (Id p) k) as [->|Hne].
  - rewrite lookup_insert_eq, last_snoc. done.
  - rewrite lookup_insert_ne by done. by rewrite app_nil_r.
Qed.

(** The parent series of a Season is resolved through the entries the
    catalog returned: the Tvdb identifier used is that of the last
    returned entry whose [Id] is the item's [SeriesId]; an item without
    [SeriesId], or whose parent was not returned, has none.  The request
    itself names each distinct parent once, and only parents of Season
    items of the batch. *)
Theorem parent_series_lookup (parents : list JellyfinItem)
    (itemsToDelete : list JellyfinItem) (item : JellyfinItem) :
  (SeriesId item = None →
   lookupTvdb (seriesIdToProviderIdMap parents) item = None)
  ∧ (∀ k, SeriesId item = Some k →
       lookupTvdb (seriesIdToProviderIdMap parents) item
       = last (List.filter (λ p, String.eqb (Id p) k) parents)
           ≫= (λ p, ProviderIds p ≫= Tvdb))
  ∧ NoDup (seriesIdsOf itemsToDelete)
  ∧ (∀ k, k ∈ seriesIdsOf itemsToDelete ↔
       k ≠ "" ∧ ∃ season, season ∈ itemsToDelete
                          ∧ Type_ season = "Season"
                          ∧ SeriesId season = Some k).
Proof.
  split; [|split; [|split]].
  - unfold lookupTvdb. by intros ->.
  - intros k Hk. unfold lookupTvdb. rewrite Hk, seriesIdToProviderIdMap_lookup.
    by destruct (last _).
  - apply NoDup_set_spread.
  - intros k. unfold seriesIdsOf.
    rewrite elem_of_set_spread, list_elem_of_omap. split.
    + intros (season & Hin & Hid).
      apply list_elem_of_In, filter_In in Hin as [Hin Hkind].
      apply String.eqb_eq in Hkind. apply truthy_str_Some in Hid as [Hid Hne].
      split; [done|]. exists season. by rewrite list_elem_of_In.
    + intros (Hne & season & Hin & Hkind & Hid). exists season. split.
      * apply list_elem_of_In, filter_In. rewrite <- list_elem_of_In.
        by rewrite Hkind.
      * rewrite Hid. cbn. by destruct (decide (k = "")).
Qed.

Lemma deleteBatch_seriesIds (svc : Services) (cfg : JccSettings)
    (itemsToDelete : list JellyfinItem) :
  deleteBatch svc cfg itemsToDelete =
  (radarrMovies ← (if configured (radarr cfg)
                   then await CallGetRadarrMovies (getRadarrMovies svc)
                   else mret []);
   sonarrSeries ← (if configured (sonarr cfg)
                   then await CallGetSonarrSeries (getSonarrSeries svc)
                   else mret []);
   jellyfinParentSeries ←
     (if (0 <? length (seriesIdsOf itemsToDelete))%nat
      then await (CallGetItemsByIds (seriesIdsOf itemsToDelete))
             (λ h, getItemsByIds svc h (seriesIdsOf itemsToDelete))
      else mret []);
   for_of
     (processItem svc cfg radarrMovies sonarrSeries
        (seriesIdToProviderIdMap jellyfinParentSeries))
     itemsToDelete).
Proof. reflexivity. Qed.

(** The only catalog look-up by identifiers a batch makes is the one for
    its parent series, [seriesIdsOf], and it is made only when that list is
    not empty: a batch without Season items never asks. *)
Theorem batch_asks_for_its_parents (svc : Services) (cfg : JccSettings)
    (itemsToDelete : list JellyfinItem) (r : Run) :
  issues_only
    (λ c, match c with
          | CallGetItemsByIds ids =>
              bool_decide (ids = seriesIdsOf itemsToDelete ∧ ids ≠ [])
          | CallGetItems _ => false
          | _ => true
          end)
    r (fst (deleteBatch svc cfg itemsToDelete r)).
Proof.
  revert r.
  match goal with |- ∀ r, issues_only ?P r _ =>
    change (stable (issues_only P) (deleteBatch svc cfg itemsToDelete));
    pose proof (deleteEpisodes_issues_only P svc) as Hepisodes
  end.
  rewrite deleteBatch_seriesIds.
  assert (Hitem : ∀ movies series providers item,
            stable (issues_only
                      (λ c, match c with
                            | CallGetItemsByIds ids =>
                                bool_decide
                                  (ids = seriesIdsOf itemsToDelete ∧ ids ≠ [])
                            | CallGetItems _ => false
                            | _ => true
                            end))
              (processItem svc cfg movies series providers item)).
  { intros. unfold processItem. calls_frame. }
  destruct (seriesIdsOf itemsToDelete) as [|k ids] eqn:Hids;
    cbn [length Nat.ltb Nat.leb]; calls_frame.
  intros r. eexists [_]. split; [reflexivity|]. cbn.
  rewrite bool_decide_eq_true_2; done.
Qed.

(* ===================================================================== *)
(** ** The further properties on concrete runs *)
(* ===================================================================== *)

Module Examples.

(** Three movies in the pool, all selected; the deletion of the second
    record is rejected. *)
Definition svc : Services :=
  Scenario.services Scenario.threeMovies Scenario.movieRecords [] [JNum 12].

Definition start : Run := Scenario.scanned Scenario.threeMovies [].

(** Settings with the catalog only: no acquisition manager. *)
Definition cfgCatalogOnly : JccSettings :=
  {| jellyfin := Some Scenario.service; radarr := None; sonarr := None;
     automation := None |}.

Definition ctxCatalogOnly : option SettingsContextType :=
  Some {| settings := Some cfgCatalogOnly |}.

(** Services whose catalog query is rejected. *)
Definition svcDown : Services :=
  {| getItems := λ _ _, Throw "timeout";
     getItemsByIds := λ _ _, Throw "timeout";
     getRadarrMovies := λ _, Ok [];
     getSonarrSeries := λ _, Ok [];
     getSonarrEpisodes := λ _ _, Ok [];
     deleteRadarrMovie := λ _ _, Ok tt;
     deleteSonarrEpisodeFile := λ _ _, Ok tt;
     clock := λ n, Scenario.now + Z.of_nat n |}.

(** One load of the dashboard: the movies arrive, the series listing is
    rejected, both connection tests succeed, the calendar is rejected. *)
Definition answers : DashboardAnswers nat :=
  {| latestMoviesAnswer := Ok [Scenario.movieA];
     latestSeriesAnswer := Throw "timeout";
     radarrPing := Ok tt;
     sonarrPing := Ok tt;
     calendarAnswer := Throw "timeout" |}.

Definition arrival : list (Callback nat) :=
  [ SonarrStatus nat online; RadarrStatus nat online;
    SonarrStatus nat offline; MoviesLoaded nat [Scenario.movieA] ].

Definition arrival' : list (Callback nat) :=
  [ MoviesLoaded nat [Scenario.movieA]; SonarrStatus nat online;
    SonarrStatus nat offline; RadarrStatus nat online ].

Definition dashboard0 : DashboardState nat :=
  {| statuses := {| status_jellyfin := unconfigured;
                    status_radarr := unconfigured;
                    status_sonarr := unconfigured |};
     latestMovies := []; latestSeries := []; upcomingCalendar := [];
     dash_isLoading := true |}.

End Examples.

Lemma arrival_is_an_order :
  arrival_order nat Scenario.cfg Examples.answers Examples.arrival.
Proof.
  apply interleaved_4, interleaved_3, interleaved_4, interleaved_1,
    interleaved_nil.
Defined.

Lemma arrival'_is_an_order :
  arrival_order nat Scenario.cfg Examples.answers Examples.arrival'.
Proof.
  apply interleaved_1, interleaved_4, interleaved_4, interleaved_3,
    interleaved_nil.
Defined.


Lemma unconfigured_manager_is_never_called_witness :
  issues_only (λ c, negb (isRadarrCall c)) Examples.start
    (fst (handleDelete Examples.svc Examples.ctxCatalogOnly Examples.start))
  ∧ issues_only (λ c, negb (isSonarrCall c)) Examples.start
      (fst (handleDelete Examples.svc Examples.ctxCatalogOnly Examples.start)).
Proof.
  destruct (unconfigured_manager_is_never_called Examples.svc
              Examples.ctxCatalogOnly Examples.cfgCatalogOnly Examples.start
              eq_refl) as [Hradarr Hsonarr].
  split; [apply Hradarr|apply Hsonarr]; reflexivity.
Defined.

Lemma movie_deletes_first_match_witness :
  exactly_parsed "2" = true
  ∧ (history (fst (processItem Examples.svc Scenario.cfg Scenario.movieRecords []
                  ∅ Scenario.movieB Examples.start))
  = history Examples.start
  ∨ ∃ tmdb before radarrMovie after,
      configured (radarr Scenario.cfg) = true
      ∧ ProviderIds Scenario.movieB ≫= Tmdb = Some tmdb ∧ tmdb ≠ ""
      ∧ Scenario.movieRecords = (before ++ radarrMovie :: after)%list
      ∧ strict_eq_num (tmdbId radarrMovie) (parseInt tmdb) = true
      ∧ Forall (λ m, strict_eq_num (tmdbId m) (parseInt tmdb) = false) before
      ∧ history (fst (processItem Examples.svc Scenario.cfg
                        Scenario.movieRecords [] ∅ Scenario.movieB
                        Examples.start))
        = CallDeleteRadarrMovie (radarr_id radarrMovie)
          :: history Examples.start)
  ∧ history (fst (processItem Examples.svc Scenario.cfg
                    Scenario.movieRecords [] ∅ Scenario.movieB
                    Examples.start))
    = [CallDeleteRadarrMovie (JNum 12)].
Proof.
  split; [reflexivity|]. split; [|reflexivity].
  apply (movie_deletes_first_match Examples.svc Scenario.cfg
           Scenario.movieRecords [] ∅ Scenario.movieB Examples.start).
  - reflexivity.
  - intros tmdb [= <-]. reflexivity.
Defined.


Lemma scan_failure_witness :
  deletableItems (app (fst (handleScan Examples.svcDown Scenario.ctx
                              Examples.start))) = []
  ∧ selectedItems (app (fst (handleScan Examples.svcDown Scenario.ctx
                               Examples.start))) = ∅
  ∧ error (app (fst (handleScan Examples.svcDown Scenario.ctx Examples.start)))
    = Some (logScanError "timeout")
  ∧ messages (fst (handleScan Examples.svcDown Scenario.ctx Examples.start))
    = logError "timeout" :: logScanStarted :: messages Examples.start
  ∧ isLoading (app (fst (handleScan Examples.svcDown Scenario.ctx
                           Examples.start))) = false.
Proof.
  apply (scan_failure Examples.svcDown Scenario.ctx Scenario.service "timeout"
           Examples.start); reflexivity.
Defined.

Lemma scan_keeps_captured_exclusion_out_witness :
  Id Scenario.movieA ∈ ["A"]
  ∧ deletableItems
      (app (fst (handleScanWith Examples.svc Scenario.ctx ["A"]
                   (fst (handleExcludeItem Examples.svc Scenario.movieA
                           Examples.start)))))
    = [Scenario.movieB; Scenario.movieC]
  ∧ Id Scenario.movieB ≠ Id Scenario.movieA.
Proof.
  split; [apply list_elem_of_here|]. split; [reflexivity|].
  apply (scan_keeps_captured_exclusion_out Examples.svc Scenario.ctx
           Scenario.movieA ["A"] Examples.start Scenario.movieB).
  - apply list_elem_of_here.
  - vm_compute. apply list_elem_of_here.
Defined.

(** The handler of a render that precedes the exclusion of [movieA] still
    filters with the list without it: run after the exclusion, it puts
    [movieA] back into the pool, although the stored list holds it. *)
Example stale_scan_brings_item_back :
  exclusions (app (fst (handleExcludeItem Examples.svc Scenario.movieA
                          Examples.start))) = ["A"]
  ∧ Scenario.movieA
    ∈ deletableItems
        (app (fst (handleScanWith Examples.svc Scenario.ctx
                     (exclusions (app Examples.start))
                     (fst (handleExcludeItem Examples.svc Scenario.movieA
                             Examples.start))))).
Proof. split; [reflexivity|]. vm_compute. apply list_elem_of_here. Qed.

Lemma exclude_then_remove_witness :
  exclusions (app (fst (handleRemoveExclusion (Id Scenario.movieA)
                          (fst (handleExcludeItem Examples.svc Scenario.movieA
                                  (Scenario.scanned Scenario.threeMovies
                                     ["B"]))))))
  = ["B"].
Proof.
  apply (exclude_then_remove Examples.svc Scenario.movieA
           (Scenario.scanned Scenario.threeMovies ["B"])).
  - intros Hin. apply list_elem_of_singleton in Hin. discriminate Hin.
  - apply NoDup_singleton.
Defined.

Lemma exclusions_stay_duplicate_free_witness :
  NoDup (exclusions (app (fst (handleExcludeAll Examples.svc
                                 (Scenario.scanned Scenario.threeMovies
                                    ["B"]))))).
Proof.
  apply (exclusions_stay_duplicate_free Examples.svc Scenario.ctx
           (Scenario.scanned Scenario.threeMovies ["B"])).
  apply NoDup_singleton.
Defined.

Lemma removing_last_exclusion_clears_view_witness :
  fetchExcludedItems Examples.svc Scenario.ctx
    (exclusions (app (fst (handleRemoveExclusion "B"
                             (Scenario.scanned Scenario.threeMovies ["B"])))))
    []
    {| excludedItems := [Scenario.movieB]; view_isLoading := false;
       view_error := None |}
  = ({| excludedItems := []; view_isLoading := false; view_error := None |}, []).
Proof.
  apply (removing_last_exclusion_clears_view Examples.svc Scenario.ctx "B"
           (Scenario.scanned Scenario.threeMovies ["B"])).
  intros x Hx. apply list_elem_of_singleton in Hx. exact Hx.
Defined.

Lemma dashboard_order_independent_witness :
  fetchDashboardData nat Scenario.ctx Examples.answers Examples.arrival
    Examples.dashboard0
  = fetchDashboardData nat Scenario.ctx Examples.answers Examples.arrival'
      Examples.dashboard0.
Proof.
  apply (dashboard_order_independent nat Scenario.ctx Scenario.cfg
           Examples.answers).
  - reflexivity.
  - exact arrival_is_an_order.
  - exact arrival'_is_an_order.
Defined.

Lemma dashboard_loading_flag_witness :
  dash_isLoading nat
    (fetchDashboardData nat Scenario.ctx Examples.answers Examples.arrival
       Examples.dashboard0)
  = true.
Proof.
  destruct (dashboard_loading_flag nat Scenario.ctx Scenario.cfg
              Examples.answers Examples.arrival Examples.dashboard0
              eq_refl arrival_is_an_order) as [Hstuck _].
  apply Hstuck. reflexivity.
Defined.

Lemma dashboard_statuses_witness :
  status_jellyfin
    (statuses nat (fetchDashboardData nat Scenario.ctx Examples.answers
                     Examples.arrival Examples.dashboard0)) = online
  ∧ status_radarr
      (statuses nat (fetchDashboardData nat Scenario.ctx Examples.answers
                       Examples.arrival Examples.dashboard0)) = online
  ∧ status_sonarr
      (statuses nat (fetchDashboardData nat Scenario.ctx Examples.answers
                       Examples.arrival Examples.dashboard0)) = offline
  ∧ upcomingCalendar nat
      (fetchDashboardData nat Scenario.ctx Examples.answers Examples.arrival
         Examples.dashboard0) = [].
Proof.
  apply (dashboard_statuses nat Scenario.ctx Scenario.cfg Examples.answers
           Examples.arrival Examples.dashboard0).
  - reflexivity.
  - exact arrival_is_an_order.
  - reflexivity.
Defined.
